(** * qr-song-card-gen: a shallow embedding of the card pipeline

    The development follows the three source files of the repository:
    [make_qr_cards.py] (text fitting, tables, page layout, selection and
    pagination), [fetch_track_metadata.py] (normalisation of titles and the
    ingestion loop) and [common.py] (store loading, not modelled: the store
    is taken as already loaded). *)

From Stdlib Require Import ZArith Ascii String List Bool Lia.
From stdpp Require Import gmap strings list.

Set Default Proof Using "Type".
Local Open Scope nat_scope.

(** ** Python strings

    A [str] is a sequence of Unicode code points. *)

Module Py.

Abbreviation str := (list N).

Definition of_char (c : ascii) : N := N_of_ascii c.

(** The [str] of an ASCII literal. *)
Definition of_string (s : string) : str :=
  map of_char (list_ascii_of_string s).

Definition space : N := 32%N.

(** [c.isspace()] for one code point: the white space that [strip]
    removes. *)
Definition isspace (c : N) : bool :=
  (((9 <=? c) && (c <=? 13)) || ((28 <=? c) && (c <=? 32))
   || (c =? 133) || (c =? 160) || (c =? 5760)
   || ((8192 <=? c) && (c <=? 8202)) || (c =? 8232) || (c =? 8233)
   || (c =? 8239) || (c =? 8287) || (c =? 12288))%N.

(** [s.lstrip()], [s.rstrip()], [s.strip()]. *)
Fixpoint lstrip (s : str) : str :=
  match s with
  | [] => []
  | c :: s' => if isspace c then lstrip s' else s
  end.

Definition rstrip (s : str) : str := rev (lstrip (rev s)).

Definition strip (s : str) : str := rstrip (lstrip s).

(** [s.split(sep)] for a separator of one character. *)
Fixpoint split (sep : N) (s : str) : list str :=
  match s with
  | [] => [[]]
  | c :: s' =>
      if N.eqb c sep then [] :: split sep s'
      else match split sep s' with
           | w :: ws => (c :: w) :: ws
           | [] => [[c]]
           end
  end.

(** [sep.join(ws)] for a separator of one character. *)
Fixpoint join (sep : N) (ws : list str) : str :=
  match ws with
  | [] => []
  | [w] => w
  | w :: ws' => w ++ sep :: join sep ws'
  end.

(** [range(a, b)]: empty when [b <= a]. *)
Definition range (a b : Z) : list nat :=
  seq (Z.to_nat a) (Z.to_nat (b - a)).

(** [ws[i:]] where [i] may still be [None], which slices from the start. *)
Definition slice_from {A} (i : option nat) (ws : list A) : list A :=
  match i with
  | None => ws
  | Some k => drop k ws
  end.

(** [len(s)] as a Python integer. *)
Definition len {A} (l : list A) : Z := Z.of_nat (length l).

(** [s.startswith(p)]. *)
Fixpoint startswith (s p : str) : bool :=
  match p, s with
  | [], _ => true
  | a :: p', b :: s' => N.eqb a b && startswith s' p'
  | _ :: _, [] => false
  end.

(** [s.replace(old, new)] for a non-empty [old], scanning from the left:
    [skip] counts the characters of a match still to be passed over. *)
Fixpoint replace_scan (old new : str) (skip : nat) (s : str) : str :=
  match s with
  | [] => []
  | c :: s' =>
      match skip with
      | S k => replace_scan old new k s'
      | O =>
          if startswith s old
          then new ++ replace_scan old new (length old - 1) s'
          else c :: replace_scan old new 0 s'
      end
  end.

(** [s.replace(old, new)]; an empty [old] matches between all characters. *)
Definition replace (old new : str) (s : str) : str :=
  match old with
  | [] => new ++ concat (map (fun c => c :: new) s)
  | _ :: _ => replace_scan old new 0 s
  end.

(** What a call can end in besides returning: [exit(code)] or an exception. *)
Inductive exn := KeyError (key : str) | ValueError | RuntimeError.

End Py.

(** ** Text fitter: [line_break_text] *)

Module TextFitter.
Import Py.

(** The loop of the three-line branch: [first_two_lines] grows by whole
    words and the loop breaks at the first word that would bring it to 48
    characters; the index stays [None] when the loop ends without a break. *)
Fixpoint accumulate (words : list str) (i : nat) (first_two_lines : str)
  : str * option nat :=
  match words with
  | [] => (first_two_lines, None)
  | word :: rest =>
      if (48 <=? len (first_two_lines ++ word))%Z
      then (first_two_lines, Some i)
      else accumulate rest (S i) (first_two_lines ++ (word ++ [space]))
  end.

(** [sum(len(word) for word in words)]. *)
Definition char_count (words : list str) : Z :=
  fold_right (fun word acc => (len word + acc)%Z) 0%Z words.

(** One iteration of the loop that tries a line break before word [i]. *)
Definition try_break (words : list str) (st : str * str * Z) (i : nat)
  : str * str * Z :=
  let '(top, bot, diff) := st in
  let w1 := take i words in
  let w2 := drop i words in
  let t := join space w1 in
  let b := join space w2 in
  let d := Z.abs (len t - len b) in
  if (d <? diff)%Z then (t, b, d) else (top, bot, diff).

(** The two-line branch, from [char_count] to the [return]. *)
Definition balance (words : list str) : str * str * Z :=
  fold_left (try_break words)
            (range 1 (len words - 1))
            (join space words, [], char_count words).

Definition two_lines (words : list str) : list str :=
  let '(top, bot, _) := balance words in [top; bot].

(** [line_break_text], with the depth of the recursion bounded by [fuel]:
    [None] stands for a call that would need a deeper recursion. *)
Fixpoint line_break_text_fuel (fuel : nat) (s : str) : option (list str) :=
  match fuel with
  | O => None
  | S fuel' =>
      if (len s <? 24)%Z then Some [s]
      else
        let words := split space s in
        if (48 <? len s)%Z then
          let '(first_two_lines, first_third_line_word_index) :=
            accumulate words 0 [] in
          match line_break_text_fuel fuel' (strip first_two_lines) with
          | None => None
          | Some lines =>
              Some (lines ++
                    [join space (slice_from first_third_line_word_index words)])
          end
        else Some (two_lines words)
  end.

(** Each recursive call is on a shorter string, so the length of the
    argument is always fuel enough. *)
Definition line_break_text (s : str) : option (list str) :=
  line_break_text_fuel (S (length s)) s.

(** Vocabulary of the statements about the fitter. *)

(** [first_two_lines] after the loop took the words [ws]: each word followed
    by one space. *)
Definition spaced (ws : list str) : str :=
  concat (map (fun w => w ++ [space]) ws).

(** The candidate [d] of a break before word [i]. *)
Definition split_diff (words : list str) (i : nat) : Z :=
  Z.abs (len (join space (take i words)) - len (join space (drop i words))).

(** A word that is not empty and neither starts nor ends with white space. *)
Definition tidy_word (w : str) : bool :=
  match w, last w with
  | c :: _, Some c' => negb (isspace c) && negb (isspace c')
  | _, _ => false
  end.

(** The lines that show something. *)
Definition visible (lines : list str) : list str :=
  List.filter (fun l => negb (Nat.eqb (length l) 0)) lines.

End TextFitter.


(** ** Cards, tables, pagination and the grid: [Track], [Table],
    the cell loop of [Table.render_svg], the table loop of [main] *)

Module Layout.
Import Py.

(** [datetime.date]: only the fields matter here. *)
Record date := { year : Z; month : Z; day : Z }.

Record Track := {
  release_date : date;
  title : str;
  artist : str;
  album : str;
  album_track : Z;
  track_url : str;
  album_url : str;
  artist_url : str;
  set : str;
  set_index : Z;
}.

Definition release_year (t : Track) : Z := year (release_date t).

(** A table of cards laid out on two-sided paper. *)
Record Table := { cells : list Track; width : Z; height : Z }.

(** [Table.new()]: a fresh list of cells and the default 3 by 4 grid. *)
Definition Table_new : Table := {| cells := []; width := 3; height := 4 |}.

(** [table.append(track)]: the only holder of the table is the loop that
    appends to it, so the update is written as a new value. *)
Definition Table_append (t : Table) (track : Track) : Table :=
  {| cells := cells t ++ [track]; width := width t; height := height t |}.

Definition Table_is_empty (t : Table) : bool := (len (cells t) =? 0)%Z.

Definition Table_is_full (t : Table) : bool :=
  (width t * height t <=? len (cells t))%Z.

(** The side of the sheet that [render_svg] draws. *)
Inductive mode := mode_qr | mode_title.

(** The grid position [(ix, iy)] the cell loop computes for cell [i];
    [%] and [//] raise [ZeroDivisionError] for a table of width 0. *)
Definition cell_position (m : mode) (w : Z) (i : nat) : option (Z * Z) :=
  if (w =? 0)%Z then None
  else
    match m with
    | mode_qr => Some ((w - 1 - (Z.of_nat i mod w))%Z, (Z.of_nat i / w)%Z)
    | mode_title => Some ((Z.of_nat i mod w)%Z, (Z.of_nat i / w)%Z)
    end.

(** The cell loop of [render_svg]: [for i, track in enumerate(self.cells)],
    keeping of each cell the grid position it is drawn at.  The millimetre
    coordinates derived from it are floating point and are left out. *)
Fixpoint place_cells (m : mode) (w : Z) (i : nat) (tracks : list Track)
  : option (list (Z * Z * Track)) :=
  match tracks with
  | [] => Some []
  | track :: rest =>
      match cell_position m w i with
      | None => None
      | Some (ix, iy) =>
          match place_cells m w (S i) rest with
          | None => None
          | Some placed => Some ((ix, iy, track) :: placed)
          end
      end
  end.

Definition render_cells (m : mode) (t : Table) : option (list (Z * Z * Track)) :=
  place_cells m (width t) 0 (cells t).

(** One turn of the loop [for track in tracks] of [main]; the statistics
    counters it also updates do not touch the tables and are left out. *)
Definition paginate_step (st : Table * list Table) (track : Track)
  : Table * list Table :=
  let '(table, tables) := st in
  let table := Table_append table track in
  if Table_is_full table then (Table_new, tables ++ [table])
  else (table, tables).

(** The loop and the final table, which may not be full. *)
Definition paginate (tracks : list Track) : list Table :=
  let '(table, tables) := fold_left paginate_step tracks (Table_new, []) in
  if negb (Table_is_empty table) then tables ++ [table] else tables.

(** [ceil(n / c)] on natural numbers. *)
Definition ceil_div (n c : nat) : nat := (n + (c - 1)) / c.

End Layout.

(** ** Normalizer: [clean_string] *)

Module Normalizer.
Import Py.

(** An entry of a suffix list: a literal, or a compiled regular expression,
    which is kept as the function it stands for: [re.sub] with that pattern
    and the empty replacement. *)
Inductive pattern :=
| Literal (old : str)
| Regex (sub : str -> str).

(** One turn of the loop of [clean_string]. *)
Definition clean_step (s : str) (p : pattern) : str :=
  match p with
  | Literal old => strip (replace old [] s)
  | Regex sub => strip (sub s)
  end.

Definition clean_string (s : str) (patterns_to_remove : list pattern) : str :=
  fold_left clean_step patterns_to_remove s.

(** The suffix lists.  Their regular expressions are taken as the
    substitution functions they compile to. *)
Definition dq : N := 34%N.

Definition lit (s : string) : pattern := Literal (of_string s).

Section Suffixes.
Variables album_remastered album_remaster_of_year : str -> str.
Variables track_remastered track_remaster_of_year track_featuring
  : str -> str.

Definition album_suffixes : list pattern :=
  [ Regex album_remastered;
    Regex album_remaster_of_year;
    lit "(Radio Mix)";
    lit "(Expanded)";
    lit "(Expanded Edition)";
    lit "(Expanded Version)";
    lit "(Extended)";
    lit "(Extended Edition)";
    lit "(Extended Version)";
    lit "(Platinum)";
    lit "(Platinum Edition)";
    lit "(Platinum Version)";
    lit "(Legacy)";
    lit "(Legacy Edition)";
    lit "(Legacy Version)";
    lit "(Deluxe)";
    lit "(Deluxe Edition)";
    lit "(Deluxe Remastered Edition)";
    lit "(Deluxe Version)";
    lit "(Super Deluxe)";
    lit "(eDeluxe)";
    lit "(Special Edition)";
    lit "(Remastered)";
    lit "(Remixes)";
    lit "(Bonus Track Version)";
    lit "(Original Motion Picture Soundtrack)";
    lit "(International Version)";
    lit "(International)";
    lit "(25th Anniversary Edition)";
    lit "(25th Anniversary Deluxe Edition)";
    lit "- 20th Anniversary Edition";
    lit "(The Sound of the Prohibition Era, 1919-1933)";
    lit "(Golden Gate Edition)";
    lit "(Mono & Stereo)";
    lit "(30th Anniversary / Deluxe Edition)";
    lit "(The Complete Sessions 1994-1995)";
    lit " [The Official 2010 FIFA World Cup (TM) Song]";
    lit "(Collector's Edition)";
    Literal (of_string " - From "
             ++ dq :: of_string "Four Weddings And A Funeral" ++ [dq]);
    Literal (of_string " - Love Theme from "
             ++ dq :: of_string "Titanic" ++ [dq]);
    lit " - From Deadpool and Wolverine Soundtrack";
    lit "[30 Years]";
    lit "[Deluxe Edition]";
    lit "(Original Single Mix)";
    lit "[Single Version]";
    lit "(Gold Edition)";
    lit "(Deluxe Tour Edition)";
    lit "(U.S. Version)";
    lit "(BonusTrack Version)";
    lit "(Deluxe Remastered Anniversary Edition)";
    lit "(Original Mono & Stereo Mix)";
    lit "(From Barbie The Album)" ].

Definition track_suffixes : list pattern :=
  [ lit " - Remastered Version";
    Regex track_remastered;
    Regex track_remaster_of_year;
    Regex track_featuring;
    Literal (of_string " - Erick "
             ++ dq :: of_string "More"
             ++ dq :: of_string " Album Mix");
    lit " - Mono Version";
    lit " - Original Version";
    lit " - Single Version";
    lit " - Radio Edit";
    lit "(Radio Edit)";
    lit " - Radio Mix";
    Literal (of_string " - From "
             ++ dq :: of_string "Dirty Dancing"
             ++ dq :: of_string " Soundtrack");
    lit " - Original Mix";
    Literal (of_string " - 7" ++ dq :: of_string " Mix");
    lit " - Mono";
    lit "(Mono)";
    lit " - Remastered";
    lit " [The Official 2010 FIFA World Cup (TM) Song]";
    lit "(Rerecorded)";
    lit "(Remastered)";
    Literal (of_string " - From "
             ++ dq :: of_string "Four Weddings And A Funeral" ++ [dq]);
    Literal (of_string " - Love Theme from "
             ++ dq :: of_string "Titanic" ++ [dq]);
    lit " - From Deadpool and Wolverine Soundtrack";
    lit "[Short Radio Edit]";
    Literal (of_string " - Studio Recording From "
             ++ dq :: of_string "The Voice"
             ++ dq :: of_string " Performance");
    lit " - 30 Years Remaster";
    lit "(Original Single Mix)";
    lit " - Remastered Version";
    lit " - Radio Sample";
    lit "(Club Mix)";
    lit " - Full Version; Single";
    lit " - Pop On-Tour Version";
    lit " - Justice Vs Simian";
    Literal (of_string " - From the Film "
             ++ dq :: of_string "Pretty Woman" ++ [dq]);
    lit " - Pendulum Mix";
    lit " - From Barbie The Album" ].

End Suffixes.

(** A rule that leaves [s] as it is: the literal does not occur in it, the
    expression does not match it. *)
Definition untouched (s : str) (p : pattern) : Prop :=
  match p with
  | Literal old => replace old [] s = s
  | Regex sub => sub s = s
  end.

End Normalizer.

(** ** The metadata store *)

Module Store.
Import Py.

(** One record of the store, a JSON object.  The keys that
    [fetch_track_metadata.py] always writes are fields; the keys a record
    may lack are options: the overrides, and [set] and [set_index], which
    [clean_track_data] deletes from every record it touches. *)
Record TrackData := {
  d_release_date : str;
  d_title : str;
  d_title_clean : str;
  d_title_override : option str;
  d_artist : str;
  d_artist_override : option str;
  d_album : str;
  d_album_clean : str;
  d_album_override : option str;
  d_album_track : str;
  d_track_url : str;
  d_album_url : str;
  d_artist_url : str;
  d_set : option str;
  d_set_index : option Z;
  d_sets : option (list (str * Z));
}.

(** A [dict] with its insertion order: [d.get(k)], [d[k] = v], [d.keys()],
    [d.values()]. *)
Fixpoint dict_get {V} (k : str) (d : list (str * V)) : option V :=
  match d with
  | [] => None
  | (k', v) :: rest => if decide (k' = k) then Some v else dict_get k rest
  end.

Fixpoint dict_set {V} (k : str) (v : V) (d : list (str * V)) : list (str * V) :=
  match d with
  | [] => [(k, v)]
  | (k', v') :: rest =>
      if decide (k' = k) then (k, v) :: rest else (k', v') :: dict_set k v rest
  end.

Definition keys {V} (d : list (str * V)) : list str := map fst d.

Definition values {V} (d : list (str * V)) : list V := map snd d.

(** How a loop body ends: it goes on with the next item, breaks out of the
    loop, or the program stops by [exit(code)] or by an exception. *)
Inductive ending := Completed | Exited (code : Z) | Raised (e : exn).

Inductive step (St : Type) :=
| Next (st : St)
| Break (st : St)
| Halt (e : ending) (st : St).
Arguments Next {St} st.
Arguments Break {St} st.
Arguments Halt {St} e st.

(** [for idx, item in enumerate(items, start): body]; the state the loop
    leaves is the state at the time the program stopped. *)
Fixpoint for_each {St L} (body : nat -> L -> St -> step St)
  (idx : nat) (items : list L) (st : St) : St * ending :=
  match items with
  | [] => (st, Completed)
  | item :: rest =>
      match body idx item st with
      | Next st' => for_each body (S idx) rest st'
      | Break st' => (st', Completed)
      | Halt e st' => (st', e)
      end
  end.

(** The first tokens of a line [identifier[;set_id[;set_index]]]. *)
Definition tokens_of (track_id_def : str) : list str :=
  split (of_char ";") track_id_def.

Definition track_id_of (tokens : list str) : str := nth 0 tokens [].

Definition track_set_of (tokens : list str) : option str :=
  if (1 <? len tokens)%Z then Some (nth 1 tokens []) else None.

(** Blank lines and comment lines are passed over. *)
Definition skipped_line (track_id_def : str) : bool :=
  (len (strip track_id_def) =? 0)%Z || startswith track_id_def (of_string "#").

End Store.

(** ** Deduplicator and selector: the first half of [main] in
    [make_qr_cards.py] *)

Module Selector.
Import Py Layout Store.

(** The options of the command line that the selection reads, as
    [argparse] leaves them. *)
Record args := {
  arg_offset_count : option Z;
  arg_limit_count : option Z;
  arg_set_name : option str;
  arg_set_alias : option str;
  arg_skip_if_set : option str;
  arg_fuzzy_track_dupes : bool;
}.

(** [args.offset_count or 0]. *)
Definition offset_count (a : args) : Z := default 0%Z (arg_offset_count a).

(** [set(skip_if_set.split(",")) if skip_if_set else set()]. *)
Definition skip_if_set (a : args) : gset str :=
  match arg_skip_if_set a with
  | Some (c :: s) => list_to_set (split (of_char ",") (c :: s))
  | _ => ∅
  end.

(** What the selection prints. *)
Inductive message :=
| NotFound (track_id : str)
| SkippingOtherSets (track_id : str) (other_sets : list str)
| SkippingConflicting (track_id : str) (conflicting_sets : gset str).

(** The fuzzy index: [exclude_track_data], a [defaultdict(set)]. *)
Abbreviation index := (gmap (str * str) (gset str)).

(** [track.get("title_override", track["title_clean"])] and the like. *)
Definition display_title (d : TrackData) : str :=
  default (d_title_clean d) (d_title_override d).

Definition display_artist (d : TrackData) : str :=
  default (d_artist d) (d_artist_override d).

Definition display_album (d : TrackData) : str :=
  default (d_album_clean d) (d_album_override d).

(** The loop [for track in track_metadata.values()] that prepares the
    fuzzy matching.  It reads the key [set] of each record. *)
Fixpoint index_records (skip : gset str) (records : list TrackData)
  (exclude_track_data : index) : exn + index :=
  match records with
  | [] => inr exclude_track_data
  | track :: rest =>
      match d_set track with
      | None => inl (KeyError (of_string "set"))
      | Some track_set =>
          if decide (track_set ∉ skip)
          then index_records skip rest exclude_track_data
          else
            match d_sets track with
            | None => inl (KeyError (of_string "sets"))
            | Some sets =>
                let key := (display_title track, display_artist track) in
                let before := default ∅ (exclude_track_data !! key) in
                index_records skip rest
                  (<[key := before ∪ (skip ∩ list_to_set (keys sets))]>
                     exclude_track_data)
            end
      end
  end.

Definition build_index (a : args) (track_metadata : list (str * TrackData))
  : exn + index :=
  if arg_fuzzy_track_dupes a && (0 <? Z.of_nat (size (skip_if_set a)))%Z
  then index_records (skip_if_set a) (values track_metadata) ∅
  else inr ∅.

(** The state of the selection loop. *)
Record selection := {
  count : Z;
  processed_count : Z;
  tracks : list Track;
  printed : list message;
}.

Definition print (m : message) (st : selection) : selection :=
  {| count := count st; processed_count := processed_count st;
     tracks := tracks st; printed := printed st ++ [m] |}.

(** [set_alias or track_set or ""]: an empty string counts as absent. *)
Definition set_label (set_alias track_set : option str) : str :=
  match set_alias with
  | Some (c :: a) => c :: a
  | _ => match track_set with
         | Some (c :: t) => c :: t
         | _ => []
         end
  end.

Section Library.
(** Python's [int] on a string and [date.fromisoformat]; [None] stands for
    the [ValueError] they raise. *)
Variable int : str -> option Z.
Variable fromisoformat : str -> option date.

(** [Track(...)] from the record of the store. *)
Definition make_track (a : args) (existing_track_data : TrackData)
  (track_set : option str) (track_index : Z) : option Track :=
  match fromisoformat (d_release_date existing_track_data),
        int (d_album_track existing_track_data) with
  | Some released, Some number =>
      Some {| release_date := released;
              title := display_title existing_track_data;
              artist := display_artist existing_track_data;
              album := display_album existing_track_data;
              album_track := number;
              track_url := d_track_url existing_track_data;
              album_url := d_album_url existing_track_data;
              artist_url := d_artist_url existing_track_data;
              set := set_label (arg_set_alias a) track_set;
              set_index := track_index |}
  | _, _ => None
  end.

(** From [count += 1] to the end of the loop body. *)
Definition accept (a : args) (track : Track) (st : selection)
  : step selection :=
  let count' := (count st + 1)%Z in
  if (count' <=? offset_count a)%Z
  then Next {| count := count'; processed_count := processed_count st;
               tracks := tracks st; printed := printed st |}
  else
    let st' := {| count := count';
                  processed_count := (processed_count st + 1)%Z;
                  tracks := tracks st ++ [track];
                  printed := printed st |} in
    match arg_limit_count a with
    | Some limit_count =>
        if (limit_count <=? processed_count st')%Z then Break st' else Next st'
    | None => Next st'
    end.

(** The exact check: the sets of the candidate's own record. *)
Definition other_sets_of (a : args) (sets : list (str * Z)) : list str :=
  List.filter (fun set_id => bool_decide (set_id ∈ skip_if_set a)) (keys sets).

(** The body of the loop over the lines of the list file. *)
Definition select_line (a : args) (exclude_track_data : index)
  (track_metadata : list (str * TrackData))
  (idx : nat) (track_id_def : str) (st : selection) : step selection :=
  if skipped_line track_id_def then Next st
  else
    let tokens := tokens_of track_id_def in
    let track_id := track_id_of tokens in
    let track_set := track_set_of tokens in
    match (if (2 <? len tokens)%Z then int (nth 2 tokens [])
           else Some (Z.of_nat idx)) with
    | None => Halt (Raised ValueError) st
    | Some track_index =>
        if match arg_set_name a with
           | Some name => negb (bool_decide (track_set = Some name))
           | None => false
           end
        then Next st
        else
          match dict_get track_id track_metadata with
          | None => Halt (Exited 2) (print (NotFound track_id) st)
          | Some existing_track_data =>
              let own :=
                if (0 <? Z.of_nat (size (skip_if_set a)))%Z
                then match d_sets existing_track_data with
                     | None => inl (KeyError (of_string "sets"))
                     | Some sets => inr (other_sets_of a sets)
                     end
                else inr [] in
              match own with
              | inl e => Halt (Raised e) st
              | inr (set_id :: other_sets) =>
                  Next (print (SkippingOtherSets track_id
                                 (set_id :: other_sets)) st)
              | inr [] =>
                  match make_track a existing_track_data track_set
                                   track_index with
                  | None => Halt (Raised ValueError) st
                  | Some track =>
                      match exclude_track_data
                              !! (title track, artist track) with
                      | Some conflicting_sets =>
                          Next (print (SkippingConflicting track_id
                                         conflicting_sets) st)
                      | None => accept a track st
                      end
                  end
              end
          end
    end.

(** From the index to the end of the loop: what [main] holds when it goes
    on to sort and paginate, or the way it stopped before. *)
Definition select (a : args) (track_metadata : list (str * TrackData))
  (lines : list str) : selection * ending :=
  let start := {| count := 0; processed_count := 0;
                  tracks := []; printed := [] |} in
  match build_index a track_metadata with
  | inl e => (start, Raised e)
  | inr exclude_track_data =>
      for_each (select_line a exclude_track_data track_metadata)
               0 (map strip lines) start
  end.

End Library.

End Selector.

(** ** The ingestion loop: [main] in [fetch_track_metadata.py] *)

Module Fetch.
Import Py Store Normalizer.

Record args := {
  arg_set_id : option str;
  arg_set_id_override : option str;
  arg_force_reload : bool;
  (** [args.list_file == "="] *)
  db_reprocess_mode : bool;
}.

(** What [fetch_track_metadata] reads from the page of a track. *)
Record Scraped := {
  s_release_date : str;
  s_title : str;
  s_artist : str;
  s_album : str;
  s_album_track : str;
  s_track_url : str;
  s_album_url : str;
  s_artist_url : str;
}.

Inductive message :=
| NoSetId (track_id : str)
| AlreadyExists (track_id : str)
| Fetching (track_id : str)
| CouldNotBeFetched (track_id : str) (track_index : Z)
| Saving (track_id : str).

(** The store in memory, each [save_track_db] of the run with what it wrote,
    and what was printed. *)
Record run := {
  track_db : list (str * TrackData);
  saved : list (list (str * TrackData));
  printed : list message;
}.

Definition print (m : message) (st : run) : run :=
  {| track_db := track_db st; saved := saved st;
     printed := printed st ++ [m] |}.

(** The set id of a line: the override, else the line's own token, else the
    default of the command line. *)
Definition effective_set (a : args) (tokens : list str) : option str :=
  let track_set := track_set_of tokens in
  match arg_set_id_override a with
  | Some set_id_override => Some set_id_override
  | None =>
      match track_set with
      | None => arg_set_id a
      | Some _ => track_set
      end
  end.

Section Library.
(** Python's [int]; the regular expressions of the suffix lists; and the
    request to the remote source with the reading of its answer, which
    [fetch_track_metadata] retries until it is answered. *)
Variable int : str -> option Z.
Variables album_remastered album_remaster_of_year : str -> str.
Variables track_remastered track_remaster_of_year track_featuring
  : str -> str.
Variable fetch_track_metadata : str -> str -> Z -> option Scraped.

(** [clean_track_data]: the record loses [set] and [set_index] and gets its
    cleaned title and album again.  (The reordering of the keys does not
    show in a record.) *)
Definition clean_track_data (track_data : TrackData) : TrackData :=
  {| d_release_date := d_release_date track_data;
     d_title := d_title track_data;
     d_title_clean :=
       clean_string (d_title track_data)
         (track_suffixes track_remastered track_remaster_of_year
                         track_featuring);
     d_title_override := d_title_override track_data;
     d_artist := d_artist track_data;
     d_artist_override := d_artist_override track_data;
     d_album := d_album track_data;
     d_album_clean :=
       clean_string (d_album track_data)
         (album_suffixes album_remastered album_remaster_of_year);
     d_album_override := d_album_override track_data;
     d_album_track := d_album_track track_data;
     d_track_url := d_track_url track_data;
     d_album_url := d_album_url track_data;
     d_artist_url := d_artist_url track_data;
     d_set := None;
     d_set_index := None;
     d_sets := d_sets track_data |}.

(** [sets = existing_track_data.setdefault("sets", {})] and
    [sets[track_set] = track_index]. *)
Definition add_to_set (track_set : str) (track_index : Z)
  (existing_track_data : TrackData) : TrackData :=
  {| d_release_date := d_release_date existing_track_data;
     d_title := d_title existing_track_data;
     d_title_clean := d_title_clean existing_track_data;
     d_title_override := d_title_override existing_track_data;
     d_artist := d_artist existing_track_data;
     d_artist_override := d_artist_override existing_track_data;
     d_album := d_album existing_track_data;
     d_album_clean := d_album_clean existing_track_data;
     d_album_override := d_album_override existing_track_data;
     d_album_track := d_album_track existing_track_data;
     d_track_url := d_track_url existing_track_data;
     d_album_url := d_album_url existing_track_data;
     d_artist_url := d_artist_url existing_track_data;
     d_set := d_set existing_track_data;
     d_set_index := d_set_index existing_track_data;
     d_sets := Some (dict_set track_set track_index
                       (default [] (d_sets existing_track_data))) |}.

(** [track._asdict() | {"sets": {track_set: track_index}}], cleaned, with
    the overrides of the record already in the store, each of which must
    then be there. *)
Definition new_track_data (scraped : Scraped) (track_set : str)
  (track_index : Z) (existing_track_data : option TrackData)
  : exn + TrackData :=
  let fresh (title_override artist_override album_override : option str) :=
    clean_track_data
      {| d_release_date := s_release_date scraped;
         d_title := s_title scraped;
         d_title_clean := [];
         d_title_override := title_override;
         d_artist := s_artist scraped;
         d_artist_override := artist_override;
         d_album := s_album scraped;
         d_album_clean := [];
         d_album_override := album_override;
         d_album_track := s_album_track scraped;
         d_track_url := s_track_url scraped;
         d_album_url := s_album_url scraped;
         d_artist_url := s_artist_url scraped;
         d_set := Some track_set;
         d_set_index := Some track_index;
         d_sets := Some [(track_set, track_index)] |} in
  match existing_track_data with
  | None => inr (fresh None None None)
  | Some existing =>
      match d_title_override existing, d_artist_override existing,
            d_album_override existing with
      | None, _, _ => inl (KeyError (of_string "title_override"))
      | Some _, None, _ => inl (KeyError (of_string "artist_override"))
      | Some _, Some _, None => inl (KeyError (of_string "album_override"))
      | Some t, Some ar, Some al => inr (fresh (Some t) (Some ar) (Some al))
      end
  end.

(** The body of the loop over the lines.  [already_reloaded] is never added
    to, so [track_id in already_reloaded] is always false. *)
Definition fetch_line (a : args) (idx : nat) (track_id_def : str) (st : run)
  : step run :=
  if skipped_line track_id_def then Next st
  else
    let tokens := tokens_of track_id_def in
    let track_id := track_id_of tokens in
    let track_set := effective_set a tokens in
    match (if (2 <? len tokens)%Z then int (nth 2 tokens [])
           else Some (Z.of_nat idx + 1)%Z) with
    | None => Halt (Raised ValueError) st
    | Some track_index =>
        match track_set, db_reprocess_mode a with
        | None, false => Halt (Exited 1) (print (NoSetId track_id) st)
        | _, _ =>
            let existing_track_data := dict_get track_id (track_db st) in
            match existing_track_data, arg_force_reload a with
            | Some existing, false =>
                let existing :=
                  match track_set, db_reprocess_mode a with
                  | Some track_set, false =>
                      add_to_set track_set track_index existing
                  | _, _ => existing
                  end in
                Next (print (AlreadyExists track_id)
                        {| track_db := dict_set track_id
                                         (clean_track_data existing)
                                         (track_db st);
                           saved := saved st;
                           printed := printed st |})
            | _, _ =>
                match track_set, db_reprocess_mode a with
                | Some track_set, false =>
                    let st := print (Fetching track_id) st in
                    match fetch_track_metadata track_id track_set
                                               track_index with
                    | None =>
                        Next (print (CouldNotBeFetched track_id track_index)
                                    st)
                    | Some scraped =>
                        let st := print (Saving track_id) st in
                        match new_track_data scraped track_set track_index
                                             existing_track_data with
                        | inl e => Halt (Raised e) st
                        | inr track_data =>
                            let db := dict_set track_id track_data
                                               (track_db st) in
                            Next {| track_db := db;
                                    saved := saved st ++ [db];
                                    printed := printed st |}
                        end
                    end
                | _, _ => Halt (Raised RuntimeError) st
                end
            end
        end
    end.

(** The loop and the last [save_track_db], which a run that stopped before
    does not reach.  In reprocess mode the lines are the keys of the
    store. *)
Definition track_ids_of (a : args) (lines : list str) (st : run) : list str :=
  if db_reprocess_mode a then keys (track_db st) else map strip lines.

Definition ingest (a : args) (lines : list str) (st : run) : run * ending :=
  match for_each (fetch_line a) 0 (track_ids_of a lines st) st with
  | (st', Completed) =>
      ({| track_db := track_db st';
          saved := saved st' ++ [track_db st'];
          printed := printed st' |}, Completed)
  | stopped => stopped
  end.

End Library.

End Fetch.

(** ** The retry loop of [fetch_track_metadata] *)

Module Retry.
Import Py.

Definition backoff_times : list Z := [20; 60; 120; 300; 600]%Z.

(** [backoff_sleep]: the seconds slept by the call made with the counter at
    [backoff]; the call then adds one to the counter. *)
Definition sleep_time (backoff : nat) : Z :=
  if (len backoff_times <=? Z.of_nat backoff)%Z
  then (List.last backoff_times 0 + 60 * Z.of_nat backoff)%Z
  else nth backoff backoff_times 0%Z.

(** What one request can come to: an answer with its status code, one of
    the four transport errors the loop catches, or another exception. *)
Inductive attempt (R : Type) :=
| Answer (status_code : Z) (response : R)
| Caught
| Other.
Arguments Answer {R} status_code response.
Arguments Caught {R}.
Arguments Other {R}.

(** How far the loop [while True] gets on the requests that are answered as
    [attempts] tell: it returns the first answer with a status below 400
    together with the sleeps made before it, it is stopped by an exception it
    does not catch, or it is still asking when the attempts known run out. *)
Inductive progress (R : Type) :=
| Got (response : R) (slept : list Z)
| Escaped (slept : list Z)
| StillAsking (backoff : nat) (slept : list Z).
Arguments Got {R} response slept.
Arguments Escaped {R} slept.
Arguments StillAsking {R} backoff slept.

Fixpoint request_loop {R} (attempts : list (attempt R)) (backoff : nat)
  (slept : list Z) : progress R :=
  match attempts with
  | [] => StillAsking backoff slept
  | Answer status_code response :: rest =>
      if (400 <=? status_code)%Z
      then request_loop rest (S backoff) (slept ++ [sleep_time backoff])
      else Got response slept
  | Caught :: rest =>
      request_loop rest (S backoff) (slept ++ [sleep_time backoff])
  | Other :: _ => Escaped slept
  end.

End Retry.

(** ** Key order of a stored record: [reorder_track_data] *)

Module Reorder.
Import Py Store.

(** What a field of a stored record can hold: [None], a string, an integer,
    or the mapping from sets to indexes. *)
Inductive value :=
| NoneValue
| Text (s : str)
| Number (n : Z)
| Mapping (sets : list (str * Z)).

Definition is_none (v : value) : bool :=
  match v with NoneValue => true | _ => false end.

Definition track_data_field_sequence : list str :=
  map of_string
    [ "release_date"; "title"; "title_clean"; "title_override"; "artist";
      "artist_override"; "album"; "album_clean"; "album_override";
      "album_track"; "track_url"; "album_url"; "artist_url"; "sets" ]%string.

(** [k in d] and [del d[k]]. *)
Definition dict_has {V} (k : str) (d : list (str * V)) : bool :=
  match dict_get k d with Some _ => true | None => false end.

Fixpoint dict_del {V} (k : str) (d : list (str * V)) : list (str * V) :=
  match d with
  | [] => []
  | (k', v) :: rest =>
      if decide (k' = k) then rest else (k', v) :: dict_del k rest
  end.

(** The first loop: every field of the sequence leaves [track_data], and
    goes to [copy] unless its value is [None]. *)
Fixpoint move_fields (fields : list str) (track_data copy : list (str * value))
  : list (str * value) * list (str * value) :=
  match fields with
  | [] => (track_data, copy)
  | field :: rest =>
      let copy :=
        match dict_get field track_data with
        | Some field_value =>
            if is_none field_value then copy
            else dict_set field field_value copy
        | None => copy
        end in
      let track_data :=
        if dict_has field track_data then dict_del field track_data
        else track_data in
      move_fields rest track_data copy
  end.

(** The second loop deletes from [track_data] while it iterates over it:
    after the first turn the iterator finds the size of the dict changed
    and raises [RuntimeError]; only an empty dict goes through.  The
    exception is not caught by [main], so the dict it leaves behind is not
    kept. *)
Definition move_others (track_data copy : list (str * value))
  : exn + list (str * value) * list (str * value) :=
  match track_data with
  | [] => inr ([], copy)
  | _ :: _ => inl RuntimeError
  end.

(** The third loop: [track_data[k] = v] for every item of [copy]. *)
Definition move_back (track_data copy : list (str * value))
  : list (str * value) :=
  fold_left (fun track_data item => dict_set (fst item) (snd item) track_data)
            copy track_data.

Definition reorder_track_data (track_data : list (str * value))
  : exn + list (str * value) :=
  let '(track_data, copy) :=
    move_fields track_data_field_sequence track_data [] in
  match move_others track_data copy with
  | inl e => inl e
  | inr (track_data, copy) => inr (move_back track_data copy)
  end.

End Reorder.

(** ** The statistics of [main] in [make_qr_cards.py] *)

Module Statistics.
Import Py Layout.

(** A [Counter]: a key that is missing counts 0. *)
Abbreviation counter := (gmap Z Z).

Definition count_of (c : counter) (k : Z) : Z := default 0%Z (c !! k).

(** [c[k] += 1]. *)
Definition count_up (k : Z) (c : counter) : counter :=
  <[k := (count_of c k + 1)%Z]> c.

(** [sum(c.values())]. *)
Definition total (c : counter) : Z :=
  map_fold (fun _ n acc => (n + acc)%Z) 0%Z c.

(** What a turn of the loop [for track in tracks] does to [year_counts] and
    [decade_counts]. *)
Definition tally_step (st : counter * counter) (track : Track)
  : counter * counter :=
  let '(year_counts, decade_counts) := st in
  (count_up (release_year track) year_counts,
   count_up (10 * (release_year track / 10))%Z decade_counts).

Definition tally (tracks : list Track) : counter * counter :=
  fold_left tally_step tracks (∅, ∅).

End Statistics.
(** ** Facts about the string primitives *)

Module PyFacts.
Import Py.

Lemma len_app {A} (l1 l2 : list A) : len (l1 ++ l2) = (len l1 + len l2)%Z.
Proof. unfold len. rewrite length_app. lia. Qed.

Lemma len_nonneg {A} (l : list A) : (0 <= len l)%Z.
Proof. unfold len. lia. Qed.

Lemma split_not_nil sep s : split sep s <> [].
Proof.
  destruct s as [|c s]; simpl; [discriminate|].
  destruct (N.eqb c sep); [discriminate|].
  destruct (split sep s); discriminate.
Qed.

Lemma join_cons sep w ws :
  ws <> [] -> join sep (w :: ws) = w ++ sep :: join sep ws.
Proof. destruct ws; [congruence | reflexivity]. Qed.

(** Splitting and joining again gives the string back. *)
Lemma join_split sep s : join sep (split sep s) = s.
Proof.
  induction s as [|c s IH]; [reflexivity|].
  simpl. destruct (N.eqb_spec c sep) as [->|Hne].
  - rewrite join_cons by apply split_not_nil. simpl. now rewrite IH.
  - pose proof (split_not_nil sep s) as Hnil.
    destruct (split sep s) as [|w ws]; [congruence|].
    destruct ws as [|w' ws].
    + simpl in *. now rewrite IH.
    + change (join sep ((c :: w) :: w' :: ws))
        with (c :: (w ++ sep :: join sep (w' :: ws))).
      now rewrite <- IH.
Qed.

(** No word of a split holds the separator. *)
Lemma split_no_sep sep s : Forall (fun w => ~ In sep w) (split sep s).
Proof.
  induction s as [|c s IH]; simpl.
  - constructor; [intros [] | constructor].
  - destruct (N.eqb_spec c sep) as [->|Hne].
    + constructor; [intros [] | exact IH].
    + destruct (split sep s) as [|w ws].
      * constructor; [|constructor]. intros [H|[]]. congruence.
      * inversion IH; subst. constructor; [|assumption].
        intros [H|H]; [congruence | contradiction].
Qed.

(** Joining words that hold no separator and splitting again gives the
    words back. *)
Lemma split_join sep ws :
  ws <> [] -> Forall (fun w => ~ In sep w) ws -> split sep (join sep ws) = ws.
Proof.
  induction ws as [|w ws IH]; [congruence|]. intros _ Hall.
  inversion Hall as [|? ? Hw Hws]; subst.
  destruct ws as [|w' ws].
  - simpl. clear IH Hall Hws. induction w as [|c w IHw]; [reflexivity|].
    simpl. destruct (N.eqb_spec c sep) as [->|Hne].
    + exfalso. apply Hw. now left.
    + rewrite IHw; [reflexivity|]. intros H. apply Hw. now right.
  - rewrite join_cons by discriminate.
    specialize (IH ltac:(discriminate) Hws).
    clear Hall Hws. remember (join sep (w' :: ws)) as rest eqn:Erest.
    clear Erest. induction w as [|c w IHw].
    + simpl. rewrite N.eqb_refl. now rewrite IH.
    + simpl. destruct (N.eqb_spec c sep) as [->|Hne].
      * exfalso. apply Hw. now left.
      * rewrite IHw; [reflexivity|]. intros H. apply Hw. now right.
Qed.

Lemma join_app sep ws1 ws2 :
  ws1 <> [] -> ws2 <> [] ->
  join sep (ws1 ++ ws2) = join sep ws1 ++ sep :: join sep ws2.
Proof.
  induction ws1 as [|w ws1 IH]; [congruence|]. intros _ H2.
  destruct ws1 as [|w' ws1].
  - simpl app. now rewrite join_cons.
  - change ((w :: w' :: ws1) ++ ws2) with (w :: ((w' :: ws1) ++ ws2)).
    rewrite join_cons by discriminate.
    rewrite IH by (discriminate || assumption).
    rewrite (join_cons sep w (w' :: ws1)) by discriminate.
    now rewrite <- app_assoc.
Qed.

(** A break before word [i] loses nothing: the two sides and one separator
    make up the whole. *)
Lemma join_take_drop sep ws i :
  0 < i < length ws ->
  join sep (take i ws) ++ sep :: join sep (drop i ws) = join sep ws.
Proof.
  intros Hi. rewrite <- (take_drop i ws) at 3.
  symmetry. apply join_app.
  - intros H. apply (f_equal length) in H. rewrite length_take in H.
    simpl in H. lia.
  - intros H. apply (f_equal length) in H. rewrite length_drop in H.
    simpl in H. lia.
Qed.

Lemma lstrip_length s : length (lstrip s) <= length s.
Proof.
  induction s as [|c s IH]; simpl; [lia|].
  destruct (isspace c); simpl; lia.
Qed.

Lemma strip_length s : length (strip s) <= length s.
Proof.
  unfold strip, rstrip. rewrite length_rev.
  etransitivity; [apply lstrip_length|]. rewrite length_rev.
  apply lstrip_length.
Qed.

Lemma lstrip_id s :
  match s with [] => True | c :: _ => isspace c = false end -> lstrip s = s.
Proof. destruct s as [|c s]; simpl; [reflexivity|]. now intros ->. Qed.

(** What [lstrip] returns does not start with white space. *)
Lemma lstrip_head s :
  match lstrip s with [] => True | c :: _ => isspace c = false end.
Proof.
  induction s as [|c s IH]; simpl; [exact I|].
  destruct (isspace c) eqn:E; [exact IH | exact E].
Qed.

Lemma lstrip_idem s : lstrip (lstrip s) = lstrip s.
Proof. apply lstrip_id, lstrip_head. Qed.

End PyFacts.

(** ** Facts about the text fitter *)

Module TextFitterFacts.
Import Py PyFacts TextFitter.

Lemma spaced_snoc ws w : spaced (ws ++ [w]) = spaced ws ++ (w ++ [space]).
Proof.
  unfold spaced. rewrite map_app, concat_app. simpl. now rewrite app_nil_r.
Qed.

(** The string the loop tests at word [w]: the words so far, joined. *)
Lemma join_snoc ws w : join space (ws ++ [w]) = spaced ws ++ w.
Proof.
  induction ws as [|a ws IH]; [reflexivity|].
  change ((a :: ws) ++ [w]) with (a :: (ws ++ [w])).
  rewrite join_cons by (destruct ws; discriminate).
  rewrite IH. unfold spaced. simpl. now rewrite <- !app_assoc.
Qed.

Lemma spaced_join ws : ws <> [] -> spaced ws = join space ws ++ [space].
Proof.
  intros Hne. destruct (exists_last Hne) as (ws' & w & ->).
  rewrite spaced_snoc, join_snoc. now rewrite app_assoc.
Qed.

(** The loop, started after the words [done]. *)
Lemma accumulate_from rest : forall done ftl r,
  accumulate rest (length done) (spaced done) = (ftl, r) ->
  let words := done ++ rest in
  match r with
  | Some k =>
      length done <= k < length words /\ ftl = spaced (take k words) /\
      (48 <= len (join space (take (S k) words)))%Z /\
      (forall j, length done <= j < k ->
                 (len (join space (take (S j) words)) < 48)%Z)
  | None =>
      ftl = spaced words /\
      (forall j, length done <= j < length words ->
                 (len (join space (take (S j) words)) < 48)%Z)
  end.
Proof.
  induction rest as [|word rest IH]; intros done ftl r; simpl accumulate.
  - intros [= <- <-]. simpl. rewrite app_nil_r. split; [reflexivity|]. lia.
  - assert (Htake : take (S (length done)) (done ++ word :: rest)
                    = done ++ [word]).
    { rewrite take_app_ge by lia.
      replace (S (length done) - length done) with 1 by lia. reflexivity. }
    destruct (Z.leb_spec 48 (len (spaced done ++ word))) as [Hge|Hlt].
    + intros [= <- <-]. simpl. rewrite length_app. simpl.
      split; [lia|]. split; [now rewrite take_app_length|].
      split; [|lia]. rewrite Htake, join_snoc. exact Hge.
    + intros Hacc. rewrite <- spaced_snoc in Hacc.
      replace (S (length done)) with (length (done ++ [word])) in Hacc
        by (rewrite length_app; simpl; lia).
      apply IH in Hacc. simpl in Hacc. rewrite <- app_assoc in Hacc.
      simpl in Hacc. rewrite length_app in Hacc. simpl in Hacc.
      assert (Hj : forall j, length done <= j ->
                 ~ length done + 1 <= j -> j = length done) by lia.
      simpl. destruct r as [k|].
      * destruct Hacc as (Hk & Hftl & Hge & Hbelow).
        split; [lia|]. split; [exact Hftl|]. split; [exact Hge|].
        intros j Hjk. destruct (le_dec (length done + 1) j) as [Hle|Hn].
        -- apply Hbelow. lia.
        -- rewrite (Hj j) by lia. rewrite Htake, join_snoc. exact Hlt.
      * destruct Hacc as (Hftl & Hbelow). split; [exact Hftl|].
        intros j Hjk. destruct (le_dec (length done + 1) j) as [Hle|Hn].
        -- apply Hbelow. lia.
        -- rewrite (Hj j) by lia. rewrite Htake, join_snoc. exact Hlt.
Qed.

(** Past 48 characters the loop always breaks: at the latest the last word
    completes the whole string. *)
Lemma accumulate_breaks s :
  (48 < len s)%Z ->
  let words := split space s in
  exists k,
    accumulate words 0 [] = (spaced (take k words), Some k) /\
    k < length words /\
    (48 <= len (join space (take (S k) words)))%Z /\
    (forall j, j < k -> (len (join space (take (S j) words)) < 48)%Z).
Proof.
  intros Hlong words.
  destruct (accumulate words 0 []) as [ftl r] eqn:Hacc.
  pose proof (accumulate_from words [] ftl r Hacc) as Hspec.
  simpl in Hspec. fold words in Hspec. destruct r as [k|].
  - destruct Hspec as (Hk & -> & Hge & Hbelow). exists k.
    split; [reflexivity|]. split; [lia|]. split; [exact Hge|].
    intros j Hj. apply Hbelow. lia.
  - destruct Hspec as (_ & Hbelow). exfalso.
    pose proof (split_not_nil space s) as Hne. fold words in Hne.
    assert (Hlen : 0 < length words) by (destruct words; simpl; [congruence|lia]).
    specialize (Hbelow (length words - 1) ltac:(lia)).
    rewrite take_ge in Hbelow by lia.
    unfold words in Hbelow. rewrite join_split in Hbelow. lia.
Qed.

(** What the recursive call receives is at most 48 characters long. *)
Lemma prefix_short words k :
  (forall j, j < k -> (len (join space (take (S j) words)) < 48)%Z) ->
  (len (strip (spaced (take k words))) <= 48)%Z.
Proof.
  intros Hbelow. pose proof (strip_length (spaced (take k words))) as Hs.
  assert (len (spaced (take k words)) <= 48)%Z; [|unfold len in *; lia].
  destruct k as [|k]; [rewrite take_0; unfold len; simpl; lia|].
  destruct (take (S k) words) as [|w ws] eqn:Htake; [unfold len; simpl; lia|].
  rewrite spaced_join by discriminate. rewrite len_app, <- Htake.
  specialize (Hbelow k ltac:(lia)). unfold len at 2. simpl. lia.
Qed.

Lemma two_lines_length words : length (two_lines words) = 2.
Proof. unfold two_lines. now destruct (balance words) as [[top bot] diff]. Qed.

(** At most 48 characters: no recursion, whatever the fuel left. *)
Lemma fuel_short n s :
  (len s <= 48)%Z ->
  line_break_text_fuel (S n) s =
  Some (if (len s <? 24)%Z then [s] else two_lines (split space s)).
Proof.
  intros Hs. simpl. destruct (len s <? 24)%Z; [reflexivity|].
  destruct (Z.ltb_spec 48 (len s)); [lia | reflexivity].
Qed.

(** Past 48 characters: one recursive call, which does not recurse. *)
Lemma fuel_long n s :
  (48 < len s)%Z ->
  exists k,
    let words := split space s in
    let prefix := strip (spaced (take k words)) in
    accumulate words 0 [] = (spaced (take k words), Some k) /\
    line_break_text_fuel (S n) prefix =
      Some (if (len prefix <? 24)%Z then [prefix]
            else two_lines (split space prefix)) /\
    line_break_text_fuel (S (S n)) s =
      Some ((if (len prefix <? 24)%Z then [prefix]
             else two_lines (split space prefix))
            ++ [join space (drop k words)]).
Proof.
  intros Hlong. destruct (accumulate_breaks s Hlong) as (k & Hacc & Hk & Hge & Hbelow).
  exists k. cbv zeta. split; [exact Hacc|].
  pose proof (fuel_short n _ (prefix_short _ _ Hbelow)) as Hrec.
  split; [exact Hrec|].
  change (line_break_text_fuel (S (S n)) s) with
    (if (len s <? 24)%Z then Some [s]
     else if (48 <? len s)%Z then
       let '(first_two_lines, first_third_line_word_index) :=
         accumulate (split space s) 0 [] in
       match line_break_text_fuel (S n) (strip first_two_lines) with
       | None => None
       | Some lines =>
           Some (lines ++
                 [join space (slice_from first_third_line_word_index
                                         (split space s))])
       end
     else Some (two_lines (split space s))).
  destruct (Z.ltb_spec (len s) 24); [lia|].
  destruct (Z.ltb_spec 48 (len s)); [|lia].
  rewrite Hacc, Hrec. reflexivity.
Qed.

(** Fuel 2 is the outer call and one nested call: it is always enough. *)
Lemma fuel_two n s :
  line_break_text_fuel (S (S n)) s = line_break_text_fuel 2 s.
Proof.
  destruct (Z.ltb_spec 48 (len s)) as [Hlong|Hshort].
  - destruct (fuel_long n s Hlong) as (k & Hacc & _ & ->).
    destruct (fuel_long 0 s Hlong) as (k' & Hacc' & _ & ->).
    cbv zeta in Hacc, Hacc'. rewrite Hacc in Hacc'.
    now injection Hacc' as _ <-.
  - now rewrite !fuel_short.
Qed.

Lemma line_break_text_fuel_two s :
  line_break_text s = line_break_text_fuel 2 s.
Proof.
  unfold line_break_text.
  destruct (Z.ltb_spec 48 (len s)) as [Hlong|Hshort].
  - unfold len in Hlong. destruct (length s) as [|n] eqn:E; [lia|].
    apply fuel_two.
  - now rewrite !fuel_short.
Qed.

(** *** The two-line balancer *)

Definition start (words : list str) : str * str * Z :=
  (join space words, [], char_count words).

(** What the loop holds after trying the breaks before words [1..m]:
    the starting candidate, no tried break being better than [char_count],
    or the earliest best of the tried breaks. *)
Definition picked (words : list str) (m : nat) (st : str * str * Z) : Prop :=
  (st = start words /\
   forall j, 1 <= j <= m -> (char_count words <= split_diff words j)%Z)
  \/
  (exists i, 1 <= i <= m /\
     st = (join space (take i words), join space (drop i words),
           split_diff words i) /\
     (split_diff words i < char_count words)%Z /\
     (forall j, 1 <= j <= m -> (split_diff words i <= split_diff words j)%Z) /\
     (forall j, 1 <= j < i -> (split_diff words i < split_diff words j)%Z)).

Lemma try_break_unfold words top bot diff i :
  try_break words (top, bot, diff) i =
  if (split_diff words i <? diff)%Z
  then (join space (take i words), join space (drop i words),
        split_diff words i)
  else (top, bot, diff).
Proof. reflexivity. Qed.

Lemma balance_visits words m :
  picked words m (fold_left (try_break words) (seq 1 m) (start words)).
Proof.
  induction m as [|m IH].
  - left. split; [reflexivity|]. lia.
  - rewrite seq_S, fold_left_app. simpl fold_left.
    change (1 + m) with (S m).
    assert (Hcase : forall j, 1 <= j <= S m -> 1 <= j <= m \/ j = S m) by lia.
    destruct IH as [[-> Hall] | (i & Hi & -> & Hlt & Hmin & Hfirst)].
    + unfold start at 1. rewrite try_break_unfold.
      destruct (Z.ltb_spec (split_diff words (S m)) (char_count words))
        as [Hd|Hd].
      * right. exists (S m). split; [lia|]. split; [reflexivity|].
        split; [exact Hd|]. split.
        -- intros j Hj. destruct (Hcase j Hj) as [Hj'| ->]; [|lia].
           specialize (Hall j Hj'). lia.
        -- intros j Hj. specialize (Hall j ltac:(lia)). lia.
      * left. split; [reflexivity|].
        intros j Hj. destruct (Hcase j Hj) as [Hj'| ->]; [auto|exact Hd].
    + rewrite try_break_unfold.
      destruct (Z.ltb_spec (split_diff words (S m)) (split_diff words i))
        as [Hd|Hd].
      * right. exists (S m). split; [lia|]. split; [reflexivity|].
        split; [lia|]. split.
        -- intros j Hj. destruct (Hcase j Hj) as [Hj'| ->]; [|lia].
           specialize (Hmin j Hj'). lia.
        -- intros j Hj. specialize (Hmin j ltac:(lia)). lia.
      * right. exists i. split; [lia|]. split; [reflexivity|].
        split; [exact Hlt|]. split; [|exact Hfirst].
        intros j Hj. destruct (Hcase j Hj) as [Hj'| ->]; [auto|exact Hd].
Qed.

Lemma balance_picked words :
  picked words (length words - 2) (balance words).
Proof.
  unfold balance, range.
  replace (Z.to_nat (len words - 1 - 1)) with (length words - 2)
    by (unfold len; lia).
  apply balance_visits.
Qed.

(** Between 24 and 48 characters the fitter answers with the balancer. *)
Lemma line_break_text_middle s :
  (24 <= len s <= 48)%Z ->
  line_break_text s = Some (two_lines (split space s)).
Proof.
  intros Hs. rewrite line_break_text_fuel_two, fuel_short by lia.
  destruct (Z.ltb_spec (len s) 24); [lia | reflexivity].
Qed.

(** *** Lines that show something *)

Lemma forallb_Forall {A} (f : A -> bool) l :
  forallb f l = true <-> Forall (fun x => f x = true) l.
Proof.
  induction l as [|x l IH]; simpl.
  - split; [constructor | reflexivity].
  - rewrite andb_true_iff, IH. split.
    + intros [Hx Hl]. now constructor.
    + intros H. inversion H; subst. now split.
Qed.

Lemma tidy_word_inv w :
  tidy_word w = true ->
  exists c w' c', w = c :: w' /\ last w = Some c' /\
                  isspace c = false /\ isspace c' = false.
Proof.
  unfold tidy_word. destruct w as [|c w']; [discriminate|].
  destruct (last (c :: w')) as [c'|]; [|discriminate].
  rewrite andb_true_iff, !negb_true_iff. intros [Hc Hc'].
  now exists c, w', c'.
Qed.

Lemma join_tidy_last ws :
  ws <> [] -> Forall (fun w => tidy_word w = true) ws ->
  exists c, last (join space ws) = Some c /\ isspace c = false.
Proof.
  intros Hne Htidy. induction Htidy as [|w ws' Hw Hws IH]; [congruence|].
  destruct ws' as [|w2 ws'].
  - destruct (tidy_word_inv w Hw) as (c & w' & c' & _ & Hlast & _ & Hc').
    exists c'. now split.
  - destruct IH as (c & Hlast & Hc); [discriminate|].
    exists c. split; [|exact Hc].
    rewrite join_cons by discriminate.
    rewrite last_app, last_cons, Hlast. reflexivity.
Qed.

Section Tidy.
Variable ws : list str.
Hypothesis Hne : ws <> [].
Hypothesis Htidy : Forall (fun w => tidy_word w = true) ws.

Lemma join_tidy_head :
  exists c rest, join space ws = c :: rest /\ isspace c = false.
Proof using Hne Htidy.
  destruct ws as [|w ws']; [congruence|].
  inversion Htidy as [|? ? Hw _]; subst.
  destruct (tidy_word_inv w Hw) as (c & w' & c' & -> & _ & Hc & _).
  destruct ws' as [|w2 ws']; simpl; eauto.
Qed.

Lemma join_tidy_not_nil : join space ws <> [].
Proof using Hne Htidy.
  destruct join_tidy_head as (c & rest & -> & _). discriminate.
Qed.

(** Trimming [first_two_lines] removes its last space and nothing else. *)
Lemma strip_spaced : strip (spaced ws) = join space ws.
Proof using Hne Htidy.
  rewrite spaced_join by exact Hne.
  destruct join_tidy_head as (c & rest & Hhead & Hc).
  destruct (join_tidy_last ws Hne Htidy) as (c' & Hlast & Hc').
  unfold strip. rewrite lstrip_id by (rewrite Hhead; exact Hc).
  unfold rstrip. rewrite rev_app_distr. simpl.
  apply last_Some in Hlast as (body & ->).
  rewrite rev_app_distr. simpl. rewrite Hc'.
  change (c' :: rev body) with (rev [c'] ++ rev body).
  now rewrite <- rev_app_distr, rev_involutive.
Qed.
End Tidy.

Lemma visible_app l1 l2 : visible (l1 ++ l2) = visible l1 ++ visible l2.
Proof. unfold visible. apply List.filter_app. Qed.

Lemma visible_one (l : str) : l <> [] -> visible [l] = [l].
Proof. destruct l; [congruence | reflexivity]. Qed.

(** Without recursion: the lines that show something, joined, are the
    string. *)
Lemma short_lines_rejoin s :
  Forall (fun w => tidy_word w = true) (split space s) ->
  join space (visible (if (len s <? 24)%Z then [s]
                       else two_lines (split space s))) = s.
Proof.
  intros Htidy. pose proof (split_not_nil space s) as Hne.
  pose proof (join_tidy_not_nil _ Hne Htidy) as Hs. rewrite join_split in Hs.
  destruct (len s <? 24)%Z; [now rewrite visible_one|].
  unfold two_lines. pose proof (balance_picked (split space s)) as Hp.
  destruct (balance (split space s)) as [[top bot] diff].
  destruct Hp as [[Hst _] | (i & Hi & Hst & _)].
  - injection Hst as -> -> _. rewrite join_split.
    change [s; []] with ([s] ++ [[]]). rewrite visible_app, visible_one by exact Hs.
    reflexivity.
  - injection Hst as -> -> _.
    set (words := split space s) in *.
    assert (Ht : take i words <> []).
    { intros H. apply (f_equal length) in H. rewrite length_take in H.
      simpl in H. lia. }
    assert (Hb : drop i words <> []).
    { intros H. apply (f_equal length) in H. rewrite length_drop in H.
      simpl in H. lia. }
    pose proof (join_tidy_not_nil _ Ht (Forall_take _ i _ Htidy)) as Ht'.
    pose proof (join_tidy_not_nil _ Hb (Forall_drop _ i _ Htidy)) as Hb'.
    change [join space (take i words); join space (drop i words)]
      with ([join space (take i words)] ++ [join space (drop i words)]).
    rewrite visible_app, !visible_one by assumption. simpl.
    rewrite join_take_drop by lia. apply join_split.
Qed.

(** *** The statements about the fitter *)

(** C10. [line_break_text] is total: for every string it returns a list of
    one to three lines; the outer call and at most one nested call are
    enough whatever fuel is given beyond that (recursion depth at most one);
    and for a string longer than 48 characters the loop of the three-line
    branch always sets the index of the first word of the third line, to a
    position inside the word list, before the words run out. *)
Theorem line_break_text_total (s : str) :
  exists lines,
    line_break_text s = Some lines /\
    (forall n, line_break_text_fuel (2 + n) s = Some lines) /\
    1 <= length lines <= 3 /\
    ((48 < len s)%Z ->
     exists k, snd (accumulate (split space s) 0 []) = Some k /\
               k < length (split space s)).
Proof.
  destruct (Z.ltb_spec 48 (len s)) as [Hlong|Hshort].
  - destruct (fuel_long 0 s Hlong) as (k & Hacc & _ & Hrun).
    cbv zeta in Hacc, Hrun.
    destruct (accumulate_breaks s Hlong) as (k' & Hacc' & Hk' & _).
    cbv zeta in Hacc'. rewrite Hacc in Hacc'. injection Hacc' as _ <-.
    eexists. split; [rewrite line_break_text_fuel_two; exact Hrun|].
    split; [intros n; simpl plus; rewrite fuel_two; exact Hrun|].
    split.
    + rewrite length_app. simpl.
      destruct (len (strip (spaced (take k (split space s)))) <? 24)%Z;
        [simpl; lia | rewrite two_lines_length; lia].
    + intros _. exists k. rewrite Hacc. now split.
  - eexists. split; [rewrite line_break_text_fuel_two; now apply fuel_short|].
    split; [intros n; now apply fuel_short|].
    split; [|lia].
    destruct (len s <? 24)%Z; [simpl; lia | rewrite two_lines_length; lia].
Qed.

(** C3, as the code has it.  A string shorter than 24 characters comes back
    unchanged as a single line.  A string longer than 48 characters (a
    string of exactly 48 characters goes to the two-line balancer) gives the
    lines of the fitter, applied again to the trimmed accumulated prefix,
    followed by one line with the remaining words: the prefix takes whole
    words up to the first word [k] with which it would meet or exceed 48
    characters, the recursive call gives one or two lines, so the result has
    two or three. *)
Theorem three_line_branch (s : str) :
  ((len s < 24)%Z -> line_break_text s = Some [s]) /\
  ((48 < len s)%Z ->
   exists k pre,
     k < length (split space s) /\
     (48 <= len (join space (take (S k) (split space s))))%Z /\
     (forall j, j < k ->
                (len (join space (take (S j) (split space s))) < 48)%Z) /\
     line_break_text (strip (spaced (take k (split space s)))) = Some pre /\
     1 <= length pre <= 2 /\
     line_break_text s = Some (pre ++ [join space (drop k (split space s))])) /\
  (len s = 48%Z -> line_break_text s = Some (two_lines (split space s))).
Proof.
  split; [|split].
  - intros Hs. rewrite line_break_text_fuel_two, fuel_short by lia.
    destruct (Z.ltb_spec (len s) 24); [reflexivity | lia].
  - intros Hlong.
    destruct (accumulate_breaks s Hlong) as (k & Hacc & Hk & Hge & Hbelow).
    destruct (fuel_long 0 s Hlong) as (k' & Hacc' & Hrec & Hrun).
    cbv zeta in Hacc, Hacc', Hrec, Hrun.
    rewrite Hacc in Hacc'. injection Hacc' as _ <-.
    eexists k, _. split; [exact Hk|]. split; [exact Hge|].
    split; [exact Hbelow|].
    split; [rewrite line_break_text_fuel_two, fuel_short;
            [reflexivity | now apply prefix_short]|].
    split; [|rewrite line_break_text_fuel_two; exact Hrun].
    destruct (len (strip (spaced (take k (split space s)))) <? 24)%Z;
      [simpl; lia | rewrite two_lines_length; lia].
  - intros Hs. apply line_break_text_middle. lia.
Qed.

(** C4, as the code has it.  For a string of 24 to 47 characters the fitter
    returns exactly two entries [top; bot].  Either [top] is the whole
    string and [bot] is empty (the starting candidate; always so for fewer
    than 2 words), and then no break before the last word boundary has a
    difference below the total of the word lengths; or [top] and [bot] are
    the words before and after one word boundary [i], each side joined by
    single spaces, so that [top], a space and [bot] make up the string: no
    word is split.  The break returned has a difference below the total of
    the word lengths and no larger than that of any break before the last
    word boundary, and it is the earliest of those with its difference. *)
Theorem two_line_branch (s : str) :
  (24 <= len s <= 47)%Z ->
  let words := split space s in
  exists top bot,
    line_break_text s = Some [top; bot] /\
    (length words < 2 -> top = s /\ bot = []) /\
    ((top = s /\ bot = [] /\
      forall j, 1 <= j -> j + 2 <= length words ->
                (char_count words <= split_diff words j)%Z)
     \/
     (exists i,
        1 <= i < length words /\
        top = join space (take i words) /\
        bot = join space (drop i words) /\
        top ++ space :: bot = s /\
        (split_diff words i < char_count words)%Z /\
        forall j, 1 <= j -> j + 2 <= length words ->
                  (split_diff words i <= split_diff words j)%Z /\
                  (split_diff words j = split_diff words i -> i <= j))).
Proof.
  intros Hs words. rewrite line_break_text_middle by lia. fold words.
  unfold two_lines. pose proof (balance_picked words) as Hp.
  destruct (balance words) as [[top bot] diff]. exists top, bot.
  split; [reflexivity|].
  destruct Hp as [[Hst Hall] | (i & Hi & Hst & Hlt & Hmin & Hfirst)].
  - injection Hst as -> -> _. unfold words at 1 2 3. rewrite join_split.
    split; [now split|]. left. split; [reflexivity|]. split; [reflexivity|].
    intros j Hj1 Hj2. apply Hall. lia.
  - injection Hst as -> -> _. split; [lia|]. right. exists i.
    split; [lia|]. split; [reflexivity|]. split; [reflexivity|].
    split; [rewrite join_take_drop by lia; apply join_split|].
    split; [exact Hlt|]. intros j Hj1 Hj2. split; [apply Hmin; lia|].
    intros Heq. destruct (le_lt_dec i j) as [Hle|Hgt]; [exact Hle|].
    specialize (Hfirst j ltac:(lia)). lia.
Qed.

(** C5, as the code has it.  For every string whose words (the pieces
    between single spaces) are not empty and neither start nor end with
    white space, the fitter returns lines of which those that are not empty,
    joined by single spaces, give the string back: no word is split and no
    character is dropped.  Empty lines may be among the lines returned. *)
Theorem visible_lines_rejoin (s : str) :
  forallb tidy_word (split space s) = true ->
  exists lines,
    line_break_text s = Some lines /\ join space (visible lines) = s.
Proof.
  intros Htidy%forallb_Forall.
  pose proof (split_not_nil space s) as Hne.
  pose proof (join_tidy_not_nil _ Hne Htidy) as Hs. rewrite join_split in Hs.
  rewrite line_break_text_fuel_two.
  destruct (Z.ltb_spec 48 (len s)) as [Hlong|Hshort].
  - destruct (accumulate_breaks s Hlong) as (k & Hacc & Hk & _ & _).
    destruct (fuel_long 0 s Hlong) as (k' & Hacc' & _ & ->).
    cbv zeta in Hacc, Hacc'. rewrite Hacc in Hacc'. injection Hacc' as _ <-.
    eexists. split; [reflexivity|]. cbv zeta.
    set (words := split space s) in *.
    destruct k as [|k].
    + rewrite take_0, drop_0. unfold words. rewrite join_split.
      change (strip (spaced [])) with (@nil N).
      change (len (@nil N) <? 24)%Z with true. cbv iota.
      rewrite visible_app, (visible_one s) by exact Hs. reflexivity.
    + assert (Ht : take (S k) words <> []) by (destruct words; [congruence | discriminate]).
      assert (Hb : drop (S k) words <> []).
      { intros H. apply (f_equal length) in H. rewrite length_drop in H.
        simpl in H. lia. }
      pose proof (Forall_take _ (S k) _ Htidy) as Htt.
      pose proof (join_tidy_not_nil _ Ht Htt) as Ht'.
      pose proof (join_tidy_not_nil _ Hb (Forall_drop _ (S k) _ Htidy)) as Hb'.
      rewrite (strip_spaced _ Ht Htt).
      set (prefix := join space (take (S k) words)) in *.
      assert (Hwords : split space prefix = take (S k) words).
      { apply split_join; [exact Ht|]. apply Forall_take, split_no_sep. }
      pose proof (short_lines_rejoin prefix) as Hpre.
      rewrite Hwords in Hpre. specialize (Hpre Htt). rewrite Hwords.
      rewrite visible_app, visible_one by exact Hb'.
      rewrite join_app; [| |discriminate].
      * rewrite Hpre. unfold prefix. simpl join at 2.
        rewrite join_take_drop by lia. apply join_split.
      * intros Hnil. rewrite Hnil in Hpre. simpl in Hpre. congruence.
  - eexists. split; [now apply fuel_short|]. now apply short_lines_rejoin.
Qed.

(** *** The fitter at concrete strings *)

Definition title_48 : str :=
  of_string "The Official Soundtrack of the Summer Road Trips".

Definition title_54 : str :=
  of_string "The Official Soundtrack of the Summer Road Trips Vol 2".

Definition one_word_34 : str := of_string "Donaudampfschifffahrtsgesellschaft".

Definition two_words_72 : str :=
  of_string
    "Donaudampfschifffahrtsgesellschaft Rindfleischetikettierungsueberwachung".

Definition artist_30 : str := of_string "The Rolling Stones and Friends".

Lemma three_line_branch_witness :
  (48 < len title_54)%Z /\
  exists k pre,
    k < length (split space title_54) /\
    1 <= length pre <= 2 /\
    line_break_text title_54 =
      Some (pre ++ [join space (drop k (split space title_54))]).
Proof.
  assert (Hlong : (48 < len title_54)%Z) by (vm_compute; reflexivity).
  split; [exact Hlong|].
  destruct (three_line_branch title_54) as (_ & Hsplit & _).
  destruct (Hsplit Hlong) as (k & pre & Hk & _ & _ & _ & Hpre & Hrun).
  now exists k, pre.
Defined.

(** C3 as stated fails at 48 characters: the string takes the two-line
    branch and comes back in two lines, not three. *)
Lemma fitter_at_48_counterexample :
  (48 <= len title_48)%Z /\
  line_break_text title_48 =
    Some [of_string "The Official Soundtrack";
          of_string "of the Summer Road Trips"] /\
  (forall lines, line_break_text title_48 = Some lines -> length lines <> 3).
Proof.
  split; [vm_compute; discriminate|].
  split; [vm_compute; reflexivity|].
  intros lines. vm_compute. intros [= <-]. discriminate.
Qed.

Lemma two_line_branch_witness :
  (24 <= len artist_30 <= 47)%Z /\
  line_break_text artist_30 =
    Some [of_string "The Rolling"; of_string "Stones and Friends"].
Proof.
  assert (Hs : (24 <= len artist_30 <= 47)%Z)
    by (vm_compute; split; discriminate).
  split; [exact Hs|].
  destruct (two_line_branch artist_30 Hs) as (top & bot & Hrun & _).
  rewrite Hrun. vm_compute in Hrun. exact (eq_sym Hrun).
Defined.

(** C4 as stated fails for a single word: the fitter does not fall back to
    a one-line answer, it returns the word and an empty second entry. *)
Lemma one_word_counterexample :
  (24 <= len one_word_34 <= 47)%Z /\
  length (split space one_word_34) < 2 /\
  line_break_text one_word_34 = Some [one_word_34; []] /\
  line_break_text one_word_34 <> Some [one_word_34].
Proof.
  split; [vm_compute; split; discriminate|].
  split; [vm_compute; lia|].
  split; [vm_compute; reflexivity|].
  vm_compute. discriminate.
Qed.

(** The loop of the balancer stops one boundary short of what its comment
    says ("try line-breaking between every word"): the break before the last
    word is never tried.  So a string of two words is never broken, even
    where that break is better than the starting candidate. *)
Lemma two_words_unbroken s :
  (24 <= len s <= 48)%Z ->
  length (split space s) = 2 ->
  line_break_text s = Some [s; []].
Proof.
  intros Hs Hwords. rewrite line_break_text_middle by exact Hs.
  unfold two_lines, balance, range, len. rewrite Hwords. simpl.
  now rewrite join_split.
Qed.

Definition two_words_24 : str := of_string "Creedence Clearwaterband".

Lemma last_boundary_untried :
  line_break_text two_words_24 = Some [two_words_24; []] /\
  (split_diff (split space two_words_24) 1
   < char_count (split space two_words_24))%Z.
Proof.
  split; [apply two_words_unbroken; vm_compute; [split; discriminate | reflexivity]|].
  vm_compute. reflexivity.
Qed.

Lemma visible_lines_rejoin_witness :
  forallb tidy_word (split space two_words_72) = true /\
  exists lines,
    line_break_text two_words_72 = Some lines /\
    join space (visible lines) = two_words_72.
Proof.
  assert (Htidy : forallb tidy_word (split space two_words_72) = true)
    by (vm_compute; reflexivity).
  split; [exact Htidy|]. exact (visible_lines_rejoin two_words_72 Htidy).
Defined.

(** C5 as stated fails for two long words: the first word comes back with
    an empty second line, and joining all three lines with single spaces
    puts two spaces where the string has one. *)
Lemma empty_line_counterexample :
  2 <= length (split space two_words_72) /\
  line_break_text two_words_72 =
    Some [of_string "Donaudampfschifffahrtsgesellschaft"; [];
          of_string "Rindfleischetikettierungsueberwachung"] /\
  (forall lines,
     line_break_text two_words_72 = Some lines ->
     join space lines <> two_words_72).
Proof.
  split; [vm_compute; lia|].
  split; [vm_compute; reflexivity|].
  intros lines. vm_compute. intros [= <-]. discriminate.
Qed.

End TextFitterFacts.

(** ** Facts about the grid and the pagination *)

Module LayoutFacts.
Import Py PyFacts Layout.

Lemma place_cells_lookup m w tracks : forall i,
  w <> 0%Z ->
  exists placed,
    place_cells m w i tracks = Some placed /\
    length placed = length tracks /\
    forall k track,
      tracks !! k = Some track ->
      exists ix iy,
        cell_position m w (i + k) = Some (ix, iy) /\
        placed !! k = Some (ix, iy, track).
Proof.
  intros i Hw. revert i.
  induction tracks as [|track rest IH]; intros i.
  - exists []. split; [reflexivity|]. split; [reflexivity|].
    intros k t Hk. discriminate.
  - simpl. destruct (cell_position m w i) as [[ix iy]|] eqn:Hpos.
    + destruct (IH (S i)) as (placed & -> & Hlen & Hall).
      eexists. split; [reflexivity|]. split; [simpl; now rewrite Hlen|].
      intros [|k] t Hk; simpl in Hk.
      * injection Hk as <-. exists ix, iy. rewrite Nat.add_0_r. now split.
      * destruct (Hall k t Hk) as (ix' & iy' & Hpos' & Hk').
        exists ix', iy'. replace (i + S k) with (S i + k) by lia. now split.
    + unfold cell_position in Hpos.
      destruct (Z.eqb_spec w 0); [contradiction|]. destruct m; discriminate.
Qed.

(** C1. Rendering a table in both modes, the cell loop puts the card at
    row-major index [i] in grid column [width - 1 - (i mod width)] in code
    mode and in grid column [i mod width] in title mode, in the same grid row
    [i div width]: the code column is the mirror image of the title column.
    (The grid has a width other than 0: Python's [%] raises otherwise.) *)
Theorem mirror_invariant (t : Table) :
  width t <> 0%Z ->
  exists code_side title_side,
    render_cells mode_qr t = Some code_side /\
    render_cells mode_title t = Some title_side /\
    forall i track,
      cells t !! i = Some track ->
      let w := width t in
      let col := (Z.of_nat i mod w)%Z in
      let row := (Z.of_nat i / w)%Z in
      code_side !! i = Some ((w - 1 - col)%Z, row, track) /\
      title_side !! i = Some (col, row, track).
Proof.
  intros Hw. unfold render_cells.
  destruct (place_cells_lookup mode_qr (width t) (cells t) 0 Hw)
    as (code_side & Hcode & _ & Hc).
  destruct (place_cells_lookup mode_title (width t) (cells t) 0 Hw)
    as (title_side & Htitle & _ & Ht).
  exists code_side, title_side. split; [exact Hcode|]. split; [exact Htitle|].
  intros i track Hi. cbv zeta.
  destruct (Hc i track Hi) as (ix & iy & Hpos & ->).
  destruct (Ht i track Hi) as (ix' & iy' & Hpos' & ->).
  unfold cell_position in Hpos, Hpos'.
  destruct (Z.eqb_spec (width t) 0); [contradiction|].
  simpl in Hpos, Hpos'. injection Hpos as <- <-. injection Hpos' as <- <-.
  now split.
Qed.

(** A card, and a table of four of them: the fourth starts the second
    row. *)
Definition card (n : Z) : Track :=
  {| release_date := {| year := 1977; month := 2; day := 4 |};
     title := of_string "Title"; artist := of_string "Artist";
     album := of_string "Album"; album_track := n;
     track_url := of_string "https://open.spotify.com/track/1";
     album_url := of_string "https://open.spotify.com/album/1";
     artist_url := of_string "https://open.spotify.com/artist/1";
     set := of_string "setA"; set_index := n |}.

Definition four_cards : Table :=
  {| cells := [card 0; card 1; card 2; card 3]; width := 3; height := 4 |}.

Lemma mirror_invariant_witness :
  width four_cards <> 0%Z /\
  exists code_side title_side,
    render_cells mode_qr four_cards = Some code_side /\
    render_cells mode_title four_cards = Some title_side /\
    code_side !! 3 = Some (2%Z, 1%Z, card 3) /\
    title_side !! 3 = Some (0%Z, 1%Z, card 3).
Proof.
  assert (Hw : width four_cards <> 0%Z) by discriminate.
  split; [exact Hw|].
  destruct (mirror_invariant four_cards Hw) as (c & t & Hc & Ht & Hall).
  exists c, t. split; [exact Hc|]. split; [exact Ht|].
  exact (Hall 3 (card 3) eq_refl).
Defined.

(** *** Pagination *)

(** A closed table: full, with the default grid. *)
Definition closed (t : Table) : Prop :=
  length (cells t) = 12 /\ width t = 3%Z /\ height t = 4%Z.

(** The state of the loop after the cards [seen]: the closed tables and the
    table still open hold the cards seen, in order. *)
Definition loop_state (seen : list Track) (st : Table * list Table) : Prop :=
  width (fst st) = 3%Z /\ height (fst st) = 4%Z /\
  length (cells (fst st)) < 12 /\
  Forall closed (snd st) /\
  concat (map cells (snd st)) ++ cells (fst st) = seen.

Lemma paginate_step_state seen st track :
  loop_state seen st -> loop_state (seen ++ [track]) (paginate_step st track).
Proof.
  destruct st as [table tables]. unfold loop_state. simpl.
  intros (Hw & Hh & Hlen & Hclosed & Hseen).
  unfold Table_is_full, Table_append. simpl. rewrite Hw, Hh.
  unfold len. rewrite length_app. simpl length.
  destruct (Z.leb_spec (3 * 4) (Z.of_nat (length (cells table) + 1)))
    as [Hfull|Hopen]; simpl.
  - split; [reflexivity|]. split; [reflexivity|]. split; [lia|]. split.
    + apply Forall_app. split; [exact Hclosed|].
      constructor; [|constructor]. unfold closed. simpl.
      rewrite length_app. simpl. split; [lia|]. now split.
    + rewrite map_app, concat_app. simpl.
      rewrite !app_nil_r, <- Hseen. now rewrite app_assoc.
  - split; [reflexivity|]. split; [reflexivity|].
    split; [rewrite length_app; simpl; lia|]. split; [exact Hclosed|].
    rewrite <- Hseen. now rewrite app_assoc.
Qed.

Lemma paginate_loop_state tracks : forall seen st,
  loop_state seen st ->
  loop_state (seen ++ tracks) (fold_left paginate_step tracks st).
Proof.
  induction tracks as [|track rest IH]; intros seen st Hst; simpl.
  - now rewrite app_nil_r.
  - replace (seen ++ track :: rest) with ((seen ++ [track]) ++ rest)
      by now rewrite <- app_assoc.
    apply IH, paginate_step_state, Hst.
Qed.

Lemma closed_tables_length tables :
  Forall closed tables ->
  length (concat (map cells tables)) = 12 * length tables.
Proof.
  induction 1 as [|t tables (Ht & _) _ IH]; [reflexivity|].
  simpl. rewrite length_app, IH, Ht. lia.
Qed.

Lemma cells_total tables :
  sum_list_with (fun t => length (cells t)) tables
  = length (concat (map cells tables)).
Proof.
  induction tables as [|t tables IH]; [reflexivity|].
  simpl. rewrite length_app, IH. reflexivity.
Qed.

Lemma ceil_div_exact k : ceil_div (12 * k) 12 = k.
Proof.
  unfold ceil_div. simpl Nat.sub.
  symmetry. apply (Nat.div_unique _ 12 k 11); lia.
Qed.

Lemma ceil_div_rest k r : 1 <= r <= 12 -> ceil_div (12 * k + r) 12 = S k.
Proof.
  intros Hr. unfold ceil_div. simpl Nat.sub.
  symmetry. apply (Nat.div_unique _ 12 (S k) (r - 1)); lia.
Qed.

(** [ceil_div n 12] is the ceiling of [n / 12]: the one multiple of 12 from
    [n] up to [n + 11]. *)
Lemma ceil_div_bounds n : n <= 12 * ceil_div n 12 < n + 12.
Proof.
  unfold ceil_div. simpl Nat.sub.
  pose proof (Nat.div_mod_eq (n + 11) 12) as Hdiv.
  pose proof (Nat.mod_upper_bound (n + 11) 12 ltac:(lia)) as Hmod.
  lia.
Qed.

(** C2. For every sequence of [n] cards the table loop of [main] produces
    exactly [ceil(n / 12)] tables (none when [n = 0]); every table but the
    last holds exactly 12 cards, the last holds between 1 and 12; the cards
    of the tables, table after table, are the input sequence in its order,
    and so the tables hold [n] cards in all. *)
Theorem pagination (tracks : list Track) :
  let tables := paginate tracks in
  let n := length tracks in
  length tables = ceil_div n 12 /\
  (n = 0 -> tables = []) /\
  (forall i t, tables !! i = Some t -> S i < length tables ->
               length (cells t) = 12) /\
  (forall t, last tables = Some t -> 1 <= length (cells t) <= 12) /\
  concat (map cells tables) = tracks /\
  sum_list_with (fun t => length (cells t)) tables = n.
Proof.
  intros tables n. unfold tables, paginate.
  assert (Hstart : loop_state [] (Table_new, [])).
  { unfold loop_state. simpl. repeat split; try lia. constructor. }
  pose proof (paginate_loop_state tracks [] _ Hstart) as Hst.
  destruct (fold_left paginate_step tracks (Table_new, []))
    as [table closed_tables].
  unfold loop_state in Hst. cbn [fst snd app] in Hst.
  destruct Hst as (Hw & Hh & Hlen & Hclosed & Hseen).
  pose proof (closed_tables_length _ Hclosed) as Hsum.
  assert (Hn : n = 12 * length closed_tables + length (cells table)).
  { unfold n. rewrite <- Hseen, length_app. lia. }
  unfold Table_is_empty, len.
  destruct (Z.eqb_spec (Z.of_nat (length (cells table))) 0) as [He|Hne];
    cbn [negb].
  - assert (Hnil : cells table = []) by (destruct (cells table); [reflexivity | simpl in He; lia]).
    rewrite Hnil, app_nil_r in Hseen. rewrite Hnil in Hn.
    cbn [length] in Hn. rewrite Nat.add_0_r in Hn.
    split; [rewrite Hn; now rewrite ceil_div_exact|].
    split; [intros H0; destruct closed_tables; [reflexivity | simpl in Hn; lia]|].
    split.
    { intros i t Hi _. apply list_elem_of_lookup_2 in Hi.
      rewrite Forall_forall in Hclosed. now apply Hclosed in Hi as (? & _). }
    split.
    { intros t Hl. apply last_Some_elem_of in Hl.
      rewrite Forall_forall in Hclosed. apply Hclosed in Hl as (-> & _). lia. }
    split; [exact Hseen|]. rewrite cells_total, Hseen. reflexivity.
  - assert (Hpos : 1 <= length (cells table)) by lia.
    split; [rewrite length_app, Hn, ceil_div_rest by lia; cbn [length]; lia|].
    split; [lia|].
    split.
    { intros i t Hi Hlt. rewrite length_app in Hlt. simpl in Hlt.
      rewrite lookup_app_l in Hi by lia. apply list_elem_of_lookup_2 in Hi.
      rewrite Forall_forall in Hclosed. now apply Hclosed in Hi as (? & _). }
    split.
    { intros t Hl. rewrite last_snoc in Hl. injection Hl as <-. lia. }
    rewrite map_app, concat_app. simpl. rewrite app_nil_r.
    split; [exact Hseen|].
    rewrite cells_total, map_app, concat_app. simpl.
    rewrite app_nil_r, Hseen. reflexivity.
Qed.

(** Thirteen cards make two tables, of 12 cards and of 1. *)
Lemma pagination_of_13 :
  map (fun t => length (cells t)) (paginate (map card (map Z.of_nat (seq 0 13))))
  = [12; 1].
Proof. vm_compute. reflexivity. Qed.

End LayoutFacts.

(** ** Facts about the normalizer *)

Module NormalizerFacts.
Import Py PyFacts Normalizer.

Lemma lstrip_snoc l c :
  isspace c = false -> lstrip (l ++ [c]) = lstrip l ++ [c].
Proof.
  intros Hc. induction l as [|a l IH]; simpl.
  - now rewrite Hc.
  - destruct (isspace a); [exact IH | reflexivity].
Qed.

Lemma rstrip_cons c l : isspace c = false -> rstrip (c :: l) = c :: rstrip l.
Proof.
  intros Hc. unfold rstrip. simpl. rewrite lstrip_snoc by exact Hc.
  now rewrite rev_app_distr.
Qed.

Lemma rstrip_idem l : rstrip (rstrip l) = rstrip l.
Proof. unfold rstrip. now rewrite rev_involutive, lstrip_idem. Qed.

(** Trimming a trimmed string changes nothing. *)
Lemma strip_idem s : strip (strip s) = strip s.
Proof.
  unfold strip at 2 3. pose proof (lstrip_head s) as Hhead.
  destruct (lstrip s) as [|c l]; [reflexivity|].
  rewrite rstrip_cons by exact Hhead. unfold strip.
  rewrite lstrip_id by exact Hhead.
  now rewrite rstrip_cons, rstrip_idem by exact Hhead.
Qed.

(** Every turn of the loop ends with a trim, so the result of a list that is
    not empty is trimmed. *)
Lemma clean_string_trimmed patterns : forall s,
  patterns <> [] ->
  strip (clean_string s patterns) = clean_string s patterns.
Proof.
  induction patterns as [|p rest IH]; [congruence|]. intros s _.
  destruct rest as [|q rest].
  - simpl. destruct p; apply strip_idem.
  - change (clean_string s (p :: q :: rest))
      with (clean_string (clean_step s p) (q :: rest)).
    now apply IH.
Qed.

Lemma clean_step_untouched s p :
  strip s = s -> untouched s p -> clean_step s p = s.
Proof. intros Hs Hp. destruct p; simpl in *; now rewrite Hp. Qed.

Lemma clean_string_untouched patterns s :
  strip s = s -> Forall (untouched s) patterns -> clean_string s patterns = s.
Proof.
  intros Hs Hall. induction Hall as [|p rest Hp _ IH]; [reflexivity|].
  unfold clean_string in *. simpl. now rewrite clean_step_untouched.
Qed.

(** C6, as the code has it.  Normalising twice gives the same as normalising
    once whenever the once normalised string is left as it is by every rule
    of the list (no literal of the list occurs in it, no expression of the
    list matches it).  Without that, a removal late in the list can put
    together a pattern that stands earlier in the list, and the second pass
    removes it. *)
Theorem clean_string_twice (s : str) (patterns : list pattern) :
  Forall (untouched (clean_string s patterns)) patterns ->
  clean_string (clean_string s patterns) patterns = clean_string s patterns.
Proof.
  intros Hall. destruct patterns as [|p rest]; [reflexivity|].
  apply clean_string_untouched; [|exact Hall].
  now apply clean_string_trimmed.
Qed.

Definition remastered : list pattern := [Literal (of_string "(Remastered)")].

Lemma clean_string_twice_witness :
  Forall (untouched (clean_string (of_string " Song (Remastered) ") remastered))
         remastered /\
  clean_string (clean_string (of_string " Song (Remastered) ") remastered)
               remastered
  = of_string "Song".
Proof.
  assert (H : Forall (untouched (clean_string (of_string " Song (Remastered) ")
                                              remastered)) remastered)
    by (constructor; [vm_compute; reflexivity | constructor]).
  split; [exact H|].
  rewrite (clean_string_twice _ _ H). vm_compute. reflexivity.
Defined.

Definition radio_edit_then_mono : list pattern :=
  [lit " - Radio Edit"; lit " - Mono"].

(** C6 as stated fails.  With two literals of the track list, in the order
    of the list: removing the later one puts the earlier one together, and
    only the second pass removes it. *)
Lemma clean_string_twice_counterexample :
  let s := of_string "Song - Radio - Mono Edit" in
  clean_string s radio_edit_then_mono = of_string "Song - Radio Edit" /\
  clean_string (clean_string s radio_edit_then_mono) radio_edit_then_mono
  = of_string "Song" /\
  clean_string (clean_string s radio_edit_then_mono) radio_edit_then_mono
  <> clean_string s radio_edit_then_mono.
Proof.
  split; [vm_compute; reflexivity|].
  split; [vm_compute; reflexivity|].
  vm_compute. discriminate.
Qed.

(** The same with the whole track list, whose three expressions match
    neither of the two strings (they ask for a year or for [feat.]). *)
Definition literal_tail : list pattern := drop 4 (track_suffixes id id id).

Lemma track_suffixes_split r1 r2 r3 :
  track_suffixes r1 r2 r3
  = [lit " - Remastered Version"; Regex r1; Regex r2; Regex r3]
    ++ literal_tail.
Proof. reflexivity. Qed.

Lemma track_suffixes_twice (r1 r2 r3 : str -> str) :
  let s := of_string "Song - Radio - Mono Edit" in
  let s' := of_string "Song - Radio Edit" in
  (r1 s = s /\ r2 s = s /\ r3 s = s) ->
  (r1 s' = s' /\ r2 s' = s' /\ r3 s' = s') ->
  clean_string s (track_suffixes r1 r2 r3) = s' /\
  clean_string s' (track_suffixes r1 r2 r3) = of_string "Song".
Proof.
  intros s s' (H1 & H2 & H3) (H1' & H2' & H3').
  unfold clean_string. rewrite track_suffixes_split, !fold_left_app.
  cbn [fold_left clean_step lit]. split.
  - change (strip (replace (of_string " - Remastered Version") [] s)) with s.
    rewrite H1. change (strip s) with s. rewrite H2. change (strip s) with s.
    rewrite H3. vm_compute. reflexivity.
  - change (strip (replace (of_string " - Remastered Version") [] s'))
      with s'.
    rewrite H1'. change (strip s') with s'. rewrite H2'.
    change (strip s') with s'. rewrite H3'. vm_compute. reflexivity.
Qed.

End NormalizerFacts.

(** ** Facts about the deduplicator and the selector *)

Module SelectorFacts.
Import Py PyFacts Layout Store Selector.

(** *** Sample data *)

(** Instances of the library functions that are good for the strings of the
    samples: unsigned decimal numbers, and dates written [YYYY-MM-DD]. *)
Definition digit (c : N) : option Z :=
  if ((48 <=? c) && (c <=? 57))%N then Some (Z.of_N (c - 48)) else None.

Fixpoint digits (acc : Z) (s : str) : option Z :=
  match s with
  | [] => Some acc
  | c :: s' =>
      match digit c with
      | Some d => digits (10 * acc + d) s'
      | None => None
      end
  end.

Definition sample_int (s : str) : option Z :=
  match s with
  | [] => None
  | _ :: _ => digits 0 s
  end.

Definition sample_fromisoformat (s : str) : option date :=
  match split (of_char "-") s with
  | [y; m; d] =>
      match sample_int y, sample_int m, sample_int d with
      | Some y, Some m, Some d => Some {| year := y; month := m; day := d |}
      | _, _, _ => None
      end
  | _ => None
  end.

(** A record the way [fetch_track_metadata.py] leaves it in the store:
    without the keys [set] and [set_index]. *)
Definition stored (title artist : string) (sets : list (str * Z))
  : TrackData :=
  {| d_release_date := of_string "1977-02-04";
     d_title := of_string title;
     d_title_clean := of_string title;
     d_title_override := None;
     d_artist := of_string artist;
     d_artist_override := None;
     d_album := of_string "Album";
     d_album_clean := of_string "Album";
     d_album_override := None;
     d_album_track := of_string "3";
     d_track_url := of_string "https://open.spotify.com/track/1";
     d_album_url := of_string "https://open.spotify.com/album/1";
     d_artist_url := of_string "https://open.spotify.com/artist/1";
     d_set := None;
     d_set_index := None;
     d_sets := Some sets |}.

(** The same record with a key [set] besides. *)
Definition with_set (track_set : string) (d : TrackData) : TrackData :=
  {| d_release_date := d_release_date d;
     d_title := d_title d;
     d_title_clean := d_title_clean d;
     d_title_override := d_title_override d;
     d_artist := d_artist d;
     d_artist_override := d_artist_override d;
     d_album := d_album d;
     d_album_clean := d_album_clean d;
     d_album_override := d_album_override d;
     d_album_track := d_album_track d;
     d_track_url := d_track_url d;
     d_album_url := d_album_url d;
     d_artist_url := d_artist_url d;
     d_set := Some (of_string track_set);
     d_set_index := d_set_index d;
     d_sets := d_sets d |}.

Definition setA : str := of_string "setA".
Definition setB : str := of_string "setB".

(** Two identifiers with the same title and artist, the first in [setA],
    the second in [setB]. *)
Definition two_tracks : list (str * TrackData) :=
  [ (of_string "id1", stored "Title X" "Artist Y" [(setA, 1%Z)]);
    (of_string "id2", stored "Title X" "Artist Y" [(setB, 1%Z)]) ].

Definition two_tracks_with_set : list (str * TrackData) :=
  [ (of_string "id1", with_set "setA" (stored "Title X" "Artist Y" [(setA, 1%Z)]));
    (of_string "id2", with_set "setB" (stored "Title X" "Artist Y" [(setB, 1%Z)])) ].

Definition skipping_setA (fuzzy : bool) : args :=
  {| arg_offset_count := None; arg_limit_count := None;
     arg_set_name := None; arg_set_alias := None;
     arg_skip_if_set := Some setA;
     arg_fuzzy_track_dupes := fuzzy |}.

Definition title_x_artist_y : str * str :=
  (of_string "Title X", of_string "Artist Y").

(** *** The index *)

(** With fuzzy matching on and a set to skip, a store whose first record
    has no key [set] stops the program with a [KeyError]. *)
Lemma build_index_needs_set_key a id track rest :
  arg_fuzzy_track_dupes a = true ->
  skip_if_set a <> ∅ ->
  d_set track = None ->
  build_index a ((id, track) :: rest) = inl (KeyError (of_string "set")).
Proof.
  intros Hfuzzy Hskip Hset. unfold build_index. rewrite Hfuzzy. simpl andb.
  destruct (Z.ltb_spec 0 (Z.of_nat (size (skip_if_set a)))) as [_|Hsize].
  - simpl. now rewrite Hset.
  - exfalso. apply Hskip. apply leibniz_equiv, size_empty_iff. lia.
Qed.

(** C7 at a store as the ingestion writes it: the record of [id1] belongs
    to the set to skip, yet the index is not built at all, the program stops
    at the key [set]. *)
Lemma build_index_stored_record :
  d_sets (stored "Title X" "Artist Y" [(setA, 1%Z)]) = Some [(setA, 1%Z)] /\
  setA ∈ skip_if_set (skipping_setA true) /\
  build_index (skipping_setA true) two_tracks
  = inl (KeyError (of_string "set")).
Proof.
  split; [reflexivity|]. split.
  - unfold skip_if_set. simpl. set_solver.
  - apply build_index_needs_set_key; [reflexivity | | reflexivity].
    unfold skip_if_set. simpl. set_solver.
Qed.

(** The records of a set to skip that the index leaves out: the loop passes
    over a record whose key [set] names another set, whatever its [sets]
    hold. *)
Lemma index_records_passes_over skip track rest exclude_track_data track_set :
  d_set track = Some track_set ->
  track_set ∉ skip ->
  index_records skip (track :: rest) exclude_track_data
  = index_records skip rest exclude_track_data.
Proof.
  intros Hset Hnot. simpl. rewrite Hset. now rewrite decide_True.
Qed.

(** What the loop does for a record whose key [set] names a set to skip. *)
Lemma index_records_inserts skip track rest exclude_track_data track_set sets :
  d_set track = Some track_set ->
  track_set ∈ skip ->
  d_sets track = Some sets ->
  index_records skip (track :: rest) exclude_track_data
  = index_records skip rest
      (<[(display_title track, display_artist track) :=
           default ∅ (exclude_track_data
                        !! (display_title track, display_artist track))
           ∪ (skip ∩ list_to_set (keys sets))]> exclude_track_data).
Proof.
  intros Hset Hin Hsets. simpl. rewrite Hset, Hsets.
  rewrite decide_False; [reflexivity|]. intros Hnot. now apply Hnot.
Qed.

(** *** The selection at the sample store *)

Definition no_selection : selection :=
  {| count := 0; processed_count := 0; tracks := []; printed := [] |}.

Definition sample_select :=
  select sample_int sample_fromisoformat.

(** C8 at a store as the ingestion writes it.  With fuzzy matching on, the
    run stops at the key [set] before it looks at any line: the second
    identifier is not skipped and nothing is reported.  With exact matching
    only, the second identifier is accepted. *)
Lemma select_second_identifier :
  sample_select (skipping_setA true) two_tracks [of_string "id2;setB"]
  = (no_selection, Raised (KeyError (of_string "set"))) /\
  exists track,
    sample_select (skipping_setA false) two_tracks [of_string "id2;setB"]
    = ({| count := 1; processed_count := 1; tracks := [track];
          printed := [] |}, Completed) /\
    (title track, artist track) = title_x_artist_y /\
    set track = setB.
Proof.
  split; [vm_compute; reflexivity|].
  eexists. split; [vm_compute; reflexivity|]. split; reflexivity.
Qed.

(** The same run on records that also carry the key [set]: the second
    identifier is skipped under fuzzy matching, with the set it conflicts
    with, and accepted under exact matching. *)
Lemma select_second_identifier_with_set :
  sample_select (skipping_setA true) two_tracks_with_set
                [of_string "id2;setB"]
  = ({| count := 0; processed_count := 0; tracks := [];
        printed := [SkippingConflicting (of_string "id2") {[ setA ]}] |},
     Completed) /\
  exists track,
    sample_select (skipping_setA false) two_tracks_with_set
                  [of_string "id2;setB"]
    = ({| count := 1; processed_count := 1; tracks := [track];
          printed := [] |}, Completed).
Proof.
  split; [vm_compute; reflexivity|].
  eexists. vm_compute. reflexivity.
Qed.

End SelectorFacts.

(** ** Facts about the set id of a line, on both paths *)

Module SetIdFacts.
Import Py PyFacts Layout Store.

(** A loop keeps what every turn keeps. *)
Lemma for_each_keeps {St L} (body : nat -> L -> St -> step St)
  (R : St -> St -> Prop) (P : ending -> Prop) :
  (forall st, R st st) ->
  (forall st1 st2 st3, R st1 st2 -> R st2 st3 -> R st1 st3) ->
  P Completed ->
  (forall idx item st,
     match body idx item st with
     | Next st' | Break st' => R st st'
     | Halt e st' => R st st' /\ P e
     end) ->
  forall items idx st,
    R st (fst (for_each body idx items st)) /\
    P (snd (for_each body idx items st)).
Proof.
  intros Hrefl Htrans Hdone Hbody.
  induction items as [|item rest IH]; intros idx st; simpl.
  - now split.
  - specialize (Hbody idx item st).
    destruct (body idx item st) as [st'|st'|e st']; simpl.
    + destruct (IH (S idx) st') as [HR HP]. split; [|exact HP].
      eapply Htrans; eassumption.
    + now split.
    + exact Hbody.
Qed.

(** A line without a second token has no third one either. *)
Lemma no_set_no_index tokens :
  track_set_of tokens = None -> (2 <? len tokens)%Z = false.
Proof.
  unfold track_set_of. destruct (Z.ltb_spec 1 (len tokens)); [discriminate|].
  intros _. apply Z.ltb_ge. lia.
Qed.

Section FetchPath.
Import Fetch.
Variable int : str -> option Z.
Variables album_remastered album_remaster_of_year : str -> str.
Variables track_remastered track_remaster_of_year track_featuring
  : str -> str.
Variable fetch_track_metadata : str -> str -> Z -> option Scraped.

Let line_body :=
  fetch_line int album_remastered album_remaster_of_year track_remastered
             track_remaster_of_year track_featuring fetch_track_metadata.

Let run_lines :=
  ingest int album_remastered album_remaster_of_year track_remastered
         track_remaster_of_year track_featuring fetch_track_metadata.

(** What a later state of the run has saved begins with what was saved
    before. *)
Definition keeps_saved (st st' : run) : Prop :=
  exists more, saved st' = saved st ++ more.

Lemma keeps_saved_refl st : keeps_saved st st.
Proof. exists []. now rewrite app_nil_r. Qed.

Lemma keeps_saved_trans st1 st2 st3 :
  keeps_saved st1 st2 -> keeps_saved st2 st3 -> keeps_saved st1 st3.
Proof.
  intros [m1 H1] [m2 H2]. exists (m1 ++ m2). now rewrite H2, H1, app_assoc.
Qed.

(** The set id of a line by precedence. *)
Lemma effective_set_precedence a tokens :
  match arg_set_id_override a, track_set_of tokens with
  | Some set_id_override, _ => effective_set a tokens = Some set_id_override
  | None, Some track_set => effective_set a tokens = Some track_set
  | None, None => effective_set a tokens = arg_set_id a
  end.
Proof.
  unfold effective_set.
  destruct (arg_set_id_override a), (track_set_of tokens); reflexivity.
Qed.

Lemma effective_set_none a tokens :
  effective_set a tokens = None -> track_set_of tokens = None.
Proof.
  unfold effective_set.
  destruct (arg_set_id_override a), (track_set_of tokens); congruence.
Qed.

(** A line whose set id does not resolve stops the run with status 1,
    outside reprocess mode. *)
Lemma fetch_line_unresolved a idx track_id_def st :
  skipped_line track_id_def = false ->
  effective_set a (tokens_of track_id_def) = None ->
  db_reprocess_mode a = false ->
  line_body a idx track_id_def st
  = Halt (Exited 1) (print (NoSetId (track_id_of (tokens_of track_id_def))) st).
Proof.
  intros Hline Hset Hmode. unfold line_body, fetch_line.
  rewrite Hline, Hset, Hmode.
  now rewrite (no_set_no_index _ (effective_set_none _ _ Hset)).
Qed.

Ltac end_of_line :=
  lazymatch goal with
  | |- keeps_saved _ _ =>
      first [ apply keeps_saved_refl
            | exists []; simpl; symmetry; apply app_nil_r
            | eexists; simpl; reflexivity ]
  | |- _ /\ _ =>
      split; [end_of_line
             | first [discriminate | intros code [= <-]; now repeat split]]
  end.

(** Every way a line can end: the run never exits but with status 1 for a
    set id that does not resolve, and a line never takes back a save. *)
Lemma fetch_line_ends a idx track_id_def st :
  match line_body a idx track_id_def st with
  | Next st' | Break st' => keeps_saved st st'
  | Halt e st' =>
      keeps_saved st st' /\
      forall code, e = Exited code ->
        code = 1%Z /\
        effective_set a (tokens_of track_id_def) = None /\
        db_reprocess_mode a = false /\
        track_db st' = track_db st /\ saved st' = saved st
  end.
Proof.
  unfold line_body, fetch_line.
  destruct (skipped_line track_id_def); [end_of_line|].
  destruct (if (2 <? len (tokens_of track_id_def))%Z then _ else _)
    as [track_index|]; [|end_of_line].
  destruct (effective_set a (tokens_of track_id_def)) as [track_set|] eqn:Hset,
           (db_reprocess_mode a) eqn:Hmode;
    [| | |end_of_line];
    (destruct (dict_get _ (track_db st)) as [existing|],
              (arg_force_reload a); try end_of_line);
    (destruct (fetch_track_metadata _ track_set track_index) as [scraped|];
     [|end_of_line]);
    (destruct (new_track_data _ _ _ _ _ _ _ _ _) as [e|track_data];
     end_of_line).
Qed.

Lemma fetch_line_step a idx track_id_def st :
  match line_body a idx track_id_def st with
  | Next st' | Break st' => keeps_saved st st'
  | Halt e st' =>
      keeps_saved st st' /\ forall code, e = Exited code -> code = 1%Z
  end.
Proof.
  pose proof (fetch_line_ends a idx track_id_def st) as H.
  destruct (line_body a idx track_id_def st) as [st'|st'|e st'];
    try exact H.
  split; [apply H|]. intros code Hcode. now apply H.
Qed.

(** *** The records the ingestion leaves in the store *)

Definition without_set (db : list (str * TrackData)) : Prop :=
  Forall (fun entry => d_set (snd entry) = None) db.

Lemma dict_set_without_set k d db :
  d_set d = None -> without_set db -> without_set (dict_set k d db).
Proof.
  intros Hd Hdb. induction Hdb as [|[k' d'] rest Hd' Hrest IH]; simpl.
  - now repeat constructor.
  - destruct (decide (k' = k)); constructor; assumption.
Qed.

Lemma new_track_data_without_set scraped track_set track_index existing d :
  new_track_data album_remastered album_remaster_of_year track_remastered
    track_remaster_of_year track_featuring scraped track_set track_index
    existing = inr d ->
  d_set d = None.
Proof.
  unfold new_track_data. destruct existing as [e|].
  - destruct (d_title_override e), (d_artist_override e),
             (d_album_override e); try discriminate; now intros [= <-].
  - now intros [= <-].
Qed.

(** No line puts a record with the key [set] into the store. *)
Lemma fetch_line_without_set a idx track_id_def st :
  without_set (track_db st) ->
  match line_body a idx track_id_def st with
  | Next st' | Break st' | Halt _ st' => without_set (track_db st')
  end.
Proof.
  intros Hdb. unfold line_body, fetch_line.
  destruct (skipped_line track_id_def); [exact Hdb|].
  destruct (if (2 <? len (tokens_of track_id_def))%Z then _ else _)
    as [track_index|]; [|exact Hdb].
  destruct (effective_set a (tokens_of track_id_def)) as [track_set|],
           (db_reprocess_mode a); [| | |exact Hdb];
    (destruct (dict_get _ (track_db st)) as [existing|],
              (arg_force_reload a);
     try exact Hdb;
     try (apply dict_set_without_set; [reflexivity | exact Hdb]));
    (destruct (fetch_track_metadata _ track_set track_index) as [scraped|];
     [|exact Hdb]);
    (destruct (new_track_data _ _ _ _ _ _ _ _ _) as [e|track_data] eqn:Hnew;
     [exact Hdb|]);
    (apply dict_set_without_set; [|exact Hdb]);
    eapply new_track_data_without_set; exact Hnew.
Qed.

Lemma ingest_without_set a lines st :
  without_set (track_db st) ->
  without_set (track_db (fst (run_lines a lines st))).
Proof.
  intros Hdb. unfold run_lines, ingest. fold line_body.
  pose proof (for_each_keeps (line_body a)
                (fun st0 st1 => without_set (track_db st0) ->
                                without_set (track_db st1))
                (fun _ => True) (fun _ H => H)
                (fun _ _ _ H1 H2 H => H2 (H1 H)) I) as Hloop.
  destruct Hloop with (items := track_ids_of a lines st) (idx := 0) (st := st)
    as [Hkeeps _].
  - intros i item st0.
    pose proof (fetch_line_without_set a i item st0) as Hline.
    destruct (line_body a i item st0); [exact Hline | exact Hline|].
    split; [exact Hline | exact I].
  - destruct (for_each (line_body a) 0 (track_ids_of a lines st) st)
      as [st1 e].
    simpl in Hkeeps. destruct e; simpl; auto.
Qed.

(** A run that exits does so with status 1, and what it saved for earlier
    lines stays saved. *)
Lemma ingest_exit a lines st st' code :
  run_lines a lines st = (st', Exited code) ->
  code = 1%Z /\ keeps_saved st st'.
Proof.
  unfold run_lines, ingest. fold line_body.
  pose proof (for_each_keeps (line_body a) keeps_saved
                (fun e => forall c, e = Exited c -> c = 1%Z)
                keeps_saved_refl keeps_saved_trans ltac:(discriminate)
                (fetch_line_step a) (track_ids_of a lines st) 0 st)
    as [Hkeeps Hcode].
  destruct (for_each (line_body a) 0 (track_ids_of a lines st) st)
    as [st1 e].
  simpl in Hkeeps, Hcode.
  destruct e as [|c|e]; [discriminate| |discriminate].
  intros [= <- <-]. split; [now apply Hcode | exact Hkeeps].
Qed.

End FetchPath.

Section RenderPath.
Import Selector.
Variable int : str -> option Z.
Variable fromisoformat : str -> option date.

Lemma accept_goes_on a track st :
  match accept a track st with
  | Next _ | Break _ => True
  | Halt _ _ => False
  end.
Proof.
  unfold accept. destruct (_ <=? _)%Z; [exact I|].
  destruct (arg_limit_count a) as [limit|]; [|exact I].
  now destruct (_ <=? _)%Z.
Qed.

(** The only [exit] of the selection loop is the one for an identifier that
    the store does not have. *)
Lemma select_line_exit a exclude_track_data track_metadata idx track_id_def
      st code st' :
  select_line int fromisoformat a exclude_track_data track_metadata idx
              track_id_def st = Halt (Exited code) st' ->
  code = 2%Z /\
  dict_get (track_id_of (tokens_of track_id_def)) track_metadata = None.
Proof.
  unfold select_line.
  destruct (skipped_line track_id_def); [discriminate|].
  destruct (if (2 <? len (tokens_of track_id_def))%Z then _ else _)
    as [track_index|]; [|discriminate].
  destruct (match arg_set_name a with Some _ => _ | None => _ end);
    [discriminate|].
  destruct (dict_get _ track_metadata) as [existing|];
    [|intros [= <- _]; now split].
  destruct (if (0 <? _)%Z then _ else _) as [e|[|set_id other_sets]];
    try discriminate.
  destruct (make_track _ _ _ _ _ _) as [track|]; [|discriminate].
  destruct (exclude_track_data !! _); [discriminate|].
  pose proof (accept_goes_on a track st) as Hacc.
  destruct (accept a track st); [discriminate | discriminate | contradiction].
Qed.

Lemma select_exit a track_metadata lines st code :
  select int fromisoformat a track_metadata lines = (st, Exited code) ->
  code = 2%Z.
Proof.
  unfold select. destruct (build_index a track_metadata) as [e|idx];
    [discriminate|].
  set (body := select_line int fromisoformat a idx track_metadata).
  set (start := {| count := 0; processed_count := 0;
                   tracks := []; printed := [] |}).
  pose proof (for_each_keeps body (fun _ _ => True)
                (fun e => forall c, e = Exited c -> c = 2%Z)
                (fun _ => I) (fun _ _ _ _ _ => I) ltac:(discriminate))
    as Hloop.
  destruct (Hloop) with (items := map strip lines) (idx := 0) (st := start)
    as [_ Hcode].
  - intros i item st0. unfold body.
    destruct (select_line _ _ _ _ _ _ _ _) as [st1|st1|e st1] eqn:Hline;
      try exact I.
    split; [exact I|]. intros c ->.
    now apply select_line_exit in Hline as [-> _].
  - destruct (for_each body 0 (map strip lines) start) as [st1 e].
    intros [= -> ->]. now apply Hcode.
Qed.

(** The label of a card: the alias, else the token of the line, else the
    empty string; an empty alias or token counts as none. *)
Lemma set_label_precedence set_alias track_set :
  (forall alias, set_alias = Some alias -> alias <> [] ->
                 set_label set_alias track_set = alias) /\
  (set_alias = None \/ set_alias = Some [] ->
   (forall token, track_set = Some token -> token <> [] ->
                  set_label set_alias track_set = token) /\
   (track_set = None \/ track_set = Some [] ->
    set_label set_alias track_set = [])).
Proof.
  unfold set_label. split.
  - intros alias -> Hne. now destruct alias.
  - intros [-> | ->]; (split; [intros token -> Hne; now destruct token|]);
      now intros [-> | ->].
Qed.

Lemma make_track_set a existing_track_data track_set track_index track :
  make_track int fromisoformat a existing_track_data track_set track_index
  = Some track ->
  set track = set_label (arg_set_alias a) track_set.
Proof.
  unfold make_track.
  destruct (fromisoformat (d_release_date existing_track_data)),
           (int (d_album_track existing_track_data)); try discriminate.
  now intros [= <-].
Qed.

End RenderPath.

(** C9, as the code has it.  On the fetch path the set id of a processed
    line is the configured override, else the line's own token, else the
    configured default; when none resolves and the run is not in reprocess
    mode the program prints the error and exits with status 1 at that line,
    which changes neither the store nor what is saved; a run that exits does
    so with status 1, and what it saved for earlier lines stays saved.  On
    the render path there is no override, no default and no such error: the
    label of a card is the set alias, else the line's own token, else the
    empty string (an empty alias or token counting as none), and the only
    exit of the selection is the one with status 2 for an identifier the
    store does not have. *)
Theorem set_id_resolution
  (int : str -> option Z) (fromisoformat : str -> option date)
  (album_remastered album_remaster_of_year : str -> str)
  (track_remastered track_remaster_of_year track_featuring : str -> str)
  (fetch_track_metadata : str -> str -> Z -> option Fetch.Scraped) :
  let fetch_line :=
    Fetch.fetch_line int album_remastered album_remaster_of_year
      track_remastered track_remaster_of_year track_featuring
      fetch_track_metadata in
  let ingest :=
    Fetch.ingest int album_remastered album_remaster_of_year
      track_remastered track_remaster_of_year track_featuring
      fetch_track_metadata in
  (forall a tokens,
     match Fetch.arg_set_id_override a, track_set_of tokens with
     | Some set_id_override, _ =>
         Fetch.effective_set a tokens = Some set_id_override
     | None, Some track_set => Fetch.effective_set a tokens = Some track_set
     | None, None => Fetch.effective_set a tokens = Fetch.arg_set_id a
     end) /\
  (forall a idx track_id_def st,
     skipped_line track_id_def = false ->
     Fetch.effective_set a (tokens_of track_id_def) = None ->
     Fetch.db_reprocess_mode a = false ->
     fetch_line a idx track_id_def st
     = Halt (Exited 1)
            (Fetch.print (Fetch.NoSetId (track_id_of (tokens_of track_id_def)))
                         st)) /\
  (forall a lines st st' code,
     ingest a lines st = (st', Exited code) ->
     code = 1%Z /\ exists more, Fetch.saved st' = Fetch.saved st ++ more) /\
  (forall a existing_track_data track_set track_index track,
     Selector.make_track int fromisoformat a existing_track_data track_set
                         track_index = Some track ->
     set track = Selector.set_label (Selector.arg_set_alias a) track_set) /\
  (forall set_alias track_set,
     (forall alias, set_alias = Some alias -> alias <> [] ->
                    Selector.set_label set_alias track_set = alias) /\
     (set_alias = None \/ set_alias = Some [] ->
      (forall token, track_set = Some token -> token <> [] ->
                     Selector.set_label set_alias track_set = token) /\
      (track_set = None \/ track_set = Some [] ->
       Selector.set_label set_alias track_set = []))) /\
  (forall a track_metadata lines st code,
     Selector.select int fromisoformat a track_metadata lines
     = (st, Exited code) ->
     code = 2%Z).
Proof.
  intros fetch_line ingest.
  split; [apply effective_set_precedence|].
  split; [apply fetch_line_unresolved|].
  split; [apply ingest_exit|].
  split; [apply make_track_set|].
  split; [apply set_label_precedence|].
  apply select_exit.
Qed.

(** The fuzzy index cannot be built on any store the ingestion has filled:
    its records lack the key [set] the index loop reads. *)
Lemma fuzzy_index_of_ingested_store
  (int : str -> option Z)
  (album_remastered album_remaster_of_year : str -> str)
  (track_remastered track_remaster_of_year track_featuring : str -> str)
  (fetch_track_metadata : str -> str -> Z -> option Fetch.Scraped)
  (fetch_args : Fetch.args) (lines : list str) (a : Selector.args) :
  let st :=
    fst (Fetch.ingest int album_remastered album_remaster_of_year
           track_remastered track_remaster_of_year track_featuring
           fetch_track_metadata fetch_args lines
           {| Fetch.track_db := []; Fetch.saved := [];
              Fetch.printed := [] |}) in
  Fetch.track_db st <> [] ->
  Selector.arg_fuzzy_track_dupes a = true ->
  Selector.skip_if_set a <> ∅ ->
  Selector.build_index a (Fetch.track_db st)
  = inl (KeyError (of_string "set")).
Proof.
  intros st Hne Hfuzzy Hskip.
  pose proof (ingest_without_set int album_remastered album_remaster_of_year
                track_remastered track_remaster_of_year track_featuring
                fetch_track_metadata fetch_args lines
                {| Fetch.track_db := []; Fetch.saved := [];
                   Fetch.printed := [] |} ltac:(constructor)) as Hdb.
  fold st in Hdb. destruct (Fetch.track_db st) as [|[id d] rest];
    [congruence|].
  inversion Hdb; subst.
  now apply SelectorFacts.build_index_needs_set_key.
Qed.

(** *** Both paths at sample lines *)

Definition scraped_x : Fetch.Scraped :=
  {| Fetch.s_release_date := of_string "1977-02-04";
     Fetch.s_title := of_string "Title X";
     Fetch.s_artist := of_string "Artist Y";
     Fetch.s_album := of_string "Album";
     Fetch.s_album_track := of_string "3";
     Fetch.s_track_url := of_string "https://open.spotify.com/track/1";
     Fetch.s_album_url := of_string "https://open.spotify.com/album/1";
     Fetch.s_artist_url := of_string "https://open.spotify.com/artist/1" |}.

(** The remote source answers every request with the same page, and no
    expression of the suffix lists matches what it holds. *)
Definition sample_ingest :=
  Fetch.ingest SelectorFacts.sample_int id id id id id
               (fun _ _ _ => Some scraped_x).

Definition no_set_id : Fetch.args :=
  {| Fetch.arg_set_id := None; Fetch.arg_set_id_override := None;
     Fetch.arg_force_reload := false; Fetch.db_reprocess_mode := false |}.

Definition empty_run : Fetch.run :=
  {| Fetch.track_db := []; Fetch.saved := []; Fetch.printed := [] |}.

Definition no_options : Selector.args :=
  {| Selector.arg_offset_count := None; Selector.arg_limit_count := None;
     Selector.arg_set_name := None; Selector.arg_set_alias := None;
     Selector.arg_skip_if_set := None;
     Selector.arg_fuzzy_track_dupes := false |}.

(** C9 as stated fails on both paths.  On the render path a line without a
    set id, with no alias configured, is no error: the card is made, with an
    empty label.  On the fetch path the exit for the second line leaves the
    record of the first line written. *)
Lemma set_id_counterexample :
  (exists track,
     SelectorFacts.sample_select no_options SelectorFacts.two_tracks
                                 [of_string "id1"]
     = ({| Selector.count := 1; Selector.processed_count := 1;
           Selector.tracks := [track]; Selector.printed := [] |}, Completed)
     /\ set track = []) /\
  (exists st track_data,
     sample_ingest no_set_id [of_string "id1;setA"; of_string "id2"] empty_run
     = (st, Exited 1) /\
     Fetch.saved st = [[(of_string "id1", track_data)]] /\
     d_sets track_data = Some [(of_string "setA", 1%Z)]).
Proof.
  split.
  - eexists. split; [vm_compute; reflexivity | reflexivity].
  - eexists _, _. split; [vm_compute; reflexivity|]. split; reflexivity.
Qed.

End SetIdFacts.

(** ** Facts about the retry loop *)

Module RetryFacts.
Import Py Retry.



Definition retried {R} (a : attempt R) : bool :=
  match a with
  | Answer status_code _ => (400 <=? status_code)%Z
  | Caught => true
  | Other => false
  end.

Lemma request_loop_failures {R} (failures rest : list (attempt R)) :
  forall backoff slept,
    forallb retried failures = true ->
    request_loop (failures ++ rest) backoff slept
    = request_loop rest (backoff + length failures)
        (slept ++ map sleep_time (seq backoff (length failures))).
Proof.
  induction failures as [|a failures IH]; intros backoff slept Hall.
  - simpl. now rewrite Nat.add_0_r, app_nil_r.
  - cbn [forallb] in Hall. apply andb_true_iff in Hall as [Ha Hall].
    assert (Hstep : request_loop ((a :: failures) ++ rest) backoff slept
                    = request_loop (failures ++ rest) (S backoff)
                        (slept ++ [sleep_time backoff])).
    { destruct a as [status response| |]; cbn [retried] in Ha;
        try discriminate; cbn [app request_loop]; now rewrite ?Ha. }
    rewrite Hstep, IH by exact Hall. cbn [length seq map].
    rewrite <- app_assoc. cbn [app]. f_equal. lia.
Qed.

(** The loop never gives up: after any number of failures (transport errors
    it catches, answers with a status of 400 or more) it has slept once per
    failure, by the schedule, and asks again; the first answer with a status
    below 400 ends it. *)
Theorem retry_until_answered {R} (failures rest : list (attempt R))
  (status_code : Z) (response : R) :
  forallb retried failures = true ->
  (status_code < 400)%Z ->
  let slept := map sleep_time (seq 0 (length failures)) in
  request_loop failures 0 [] = StillAsking (length failures) slept /\
  request_loop (failures ++ Answer status_code response :: rest) 0 []
  = Got response slept.
Proof.
  intros Hall Hok slept. split.
  - rewrite <- (app_nil_r failures) at 1.
    now rewrite request_loop_failures by exact Hall.
  - rewrite request_loop_failures by exact Hall. simpl.
    destruct (Z.leb_spec 400 status_code); [lia | reflexivity].
Qed.

Lemma retry_until_answered_witness :
  request_loop [Caught; Answer 429 tt; Answer 200 tt] 0 []
  = Got tt [20; 60]%Z.
Proof.
  assert (H : forallb retried [Caught; Answer 429%Z tt] = true)
    by reflexivity.
  exact (proj2 (retry_until_answered [Caught; Answer 429%Z tt] [] 200 tt H
                  eq_refl)).
Defined.

End RetryFacts.

(** ** Facts about the selection loop *)

Module SelectionFacts.
Import Py PyFacts Layout Store Selector.

(** What the loop body makes of a line, whatever the state: it passes over
    it, reports a skip, has a candidate card, or stops the program. *)
Inductive verdict :=
| Passed
| Reported (m : message)
| Candidate (track : Track)
| Stopped (e : ending) (m : option message).

Section Selection.
Variable int : str -> option Z.
Variable fromisoformat : str -> option date.
Variable a : args.
Variable exclude_track_data : index.
Variable track_metadata : list (str * TrackData).

Definition verdict_of (idx : nat) (track_id_def : str) : verdict :=
  if skipped_line track_id_def then Passed
  else
    let tokens := tokens_of track_id_def in
    let track_id := track_id_of tokens in
    let track_set := track_set_of tokens in
    match (if (2 <? len tokens)%Z then int (nth 2 tokens [])
           else Some (Z.of_nat idx)) with
    | None => Stopped (Raised ValueError) None
    | Some track_index =>
        if match arg_set_name a with
           | Some name => negb (bool_decide (track_set = Some name))
           | None => false
           end
        then Passed
        else
          match dict_get track_id track_metadata with
          | None => Stopped (Exited 2) (Some (NotFound track_id))
          | Some existing_track_data =>
              match (if (0 <? Z.of_nat (size (skip_if_set a)))%Z
                     then match d_sets existing_track_data with
                          | None => inl (KeyError (of_string "sets"))
                          | Some sets => inr (other_sets_of a sets)
                          end
                     else inr []) with
              | inl e => Stopped (Raised e) None
              | inr (set_id :: other_sets) =>
                  Reported (SkippingOtherSets track_id (set_id :: other_sets))
              | inr [] =>
                  match make_track int fromisoformat a existing_track_data
                                   track_set track_index with
                  | None => Stopped (Raised ValueError) None
                  | Some track =>
                      match exclude_track_data
                              !! (title track, artist track) with
                      | Some conflicting_sets =>
                          Reported (SkippingConflicting track_id
                                                        conflicting_sets)
                      | None => Candidate track
                      end
                  end
              end
          end
    end.

Let body := select_line int fromisoformat a exclude_track_data track_metadata.












End Selection.



(** *** The selection at sample stores *)






End SelectionFacts.

(** ** Facts about the fuzzy index *)

Module IndexFacts.
Import Py PyFacts Layout Store Selector.

(** A record the index loop takes in: its key [set] names a set to skip.
    It goes under the pair of its display title and artist. *)
Definition taken_in (skip : gset str) (key : str * str) (track : TrackData)
  : Prop :=
  (exists track_set, d_set track = Some track_set /\ track_set ∈ skip) /\
  (display_title track, display_artist track) = key.

Lemma index_records_contents skip records : forall before after key,
  index_records skip records before = inr after ->
  (is_Some (after !! key) <->
   is_Some (before !! key) \/
   exists track, In track records /\ taken_in skip key track) /\
  (forall set_id,
     set_id ∈ default ∅ (after !! key) <->
     set_id ∈ default ∅ (before !! key) \/
     exists track sets,
       In track records /\ taken_in skip key track /\
       d_sets track = Some sets /\
       set_id ∈ skip /\ In set_id (keys sets)).
Proof.
  induction records as [|track rest IH]; intros before after key; simpl.
  - intros [= <-]. split.
    + split; [now left | now intros [H|(t & [] & _)]].
    + intros set_id. split; [now left | now intros [H|(t & s & [] & _)]].
  - destruct (d_set track) as [track_set|] eqn:Hset; [|discriminate].
    destruct (decide (track_set ∉ skip)) as [Hout|Hin].
    + intros Hrest. destruct (IH _ _ key Hrest) as [Hsome Hmem]. split.
      * rewrite Hsome. split; (intros [H|(t & Ht & Htaken)]; [now left|right]).
        -- exists t. split; [now right | exact Htaken].
        -- destruct Ht as [<-|Ht]; [|now exists t].
           destruct Htaken as [(s & Hs & Hs') _]. congruence.
      * intros set_id. rewrite Hmem.
        split; (intros [H|(t & sets & Ht & Htaken & Hrest')]; [now left|right]).
        -- exists t, sets. split; [now right | now split].
        -- destruct Ht as [<-|Ht]; [|now exists t, sets].
           destruct Htaken as [(s & Hs & Hs') _]. congruence.
    + apply dec_stable in Hin.
      destruct (d_sets track) as [sets|] eqn:Hsets; [|discriminate].
      intros Hrest. destruct (IH _ _ key Hrest) as [Hsome Hmem].
      set (own := (display_title track, display_artist track)) in *.
      assert (Htaken : taken_in skip own track).
      { split; [now exists track_set | reflexivity]. }
      destruct (decide (own = key)) as [<-|Hother].
      * rewrite lookup_insert_eq in Hsome, Hmem. split.
        -- split; [intros _; right; exists track; split; [now left|exact Htaken]
                  | intros _; apply Hsome; left; eauto].
        -- intros set_id. rewrite Hmem.
           change (default ∅ (Some ?x)) with x.
           rewrite elem_of_union, elem_of_intersection, elem_of_list_to_set,
             list_elem_of_In.
           split.
           ++ intros [[Hb|[Hs Hk]]|(t & sets' & Ht & Hrest')].
              ** now left.
              ** right. exists track, sets. split; [now left|].
                 split; [exact Htaken|]. split; [exact Hsets|]. now split.
              ** right. exists t, sets'. split; [now right | exact Hrest'].
           ++ intros [Hb|(t & sets' & [<-|Ht] & Ht' & Hsets' & Hs & Hk)].
              ** left. now left.
              ** left. right. rewrite Hsets in Hsets'.
                 injection Hsets' as <-. now split.
              ** right. exists t, sets'. split; [exact Ht|].
                 split; [exact Ht'|]. split; [exact Hsets'|]. now split.
      * rewrite lookup_insert_ne in Hsome, Hmem by exact Hother. split.
        -- rewrite Hsome.
           split; (intros [H|(t & Ht & Ht')]; [now left|right]).
           ++ exists t. split; [now right | exact Ht'].
           ++ destruct Ht as [<-|Ht]; [|now exists t].
              destruct Ht' as [_ Hkey]. contradiction.
        -- intros set_id. rewrite Hmem.
           split; (intros [H|(t & sets' & Ht & Ht' & Hrest')]; [now left|right]).
           ++ exists t, sets'. split; [now right | now split].
           ++ destruct Ht as [<-|Ht]; [|now exists t, sets'].
              destruct Ht' as [_ Hkey]. contradiction.
Qed.

(** What the fuzzy index holds when it is built.  It has an entry for a pair
    of title and artist exactly when some record with that display pair has
    a key [set] naming a set to skip, and the entry holds exactly the sets to
    skip found among the keys of [sets] of those records; without fuzzy
    matching, or with no set to skip, the index is empty. *)
Theorem fuzzy_index_contents (a : args)
  (track_metadata : list (str * TrackData)) (exclude_track_data : index)
  (key : str * str) :
  build_index a track_metadata = inr exclude_track_data ->
  if arg_fuzzy_track_dupes a && negb (bool_decide (skip_if_set a = ∅))
  then
    (is_Some (exclude_track_data !! key) <->
     exists track, In track (values track_metadata) /\
                   taken_in (skip_if_set a) key track) /\
    (forall set_id,
       set_id ∈ default ∅ (exclude_track_data !! key) <->
       exists track sets,
         In track (values track_metadata) /\
         taken_in (skip_if_set a) key track /\
         d_sets track = Some sets /\
         set_id ∈ skip_if_set a /\ In set_id (keys sets))
  else exclude_track_data = ∅.
Proof.
  unfold build_index.
  assert (Hsize : (0 <? Z.of_nat (size (skip_if_set a)))%Z
                  = negb (bool_decide (skip_if_set a = ∅))).
  { destruct (Z.ltb_spec 0 (Z.of_nat (size (skip_if_set a)))) as [Hpos|Hzero];
      symmetry.
    - apply negb_true_iff, bool_decide_eq_false. intros Hempty.
      rewrite Hempty, size_empty in Hpos. lia.
    - apply negb_false_iff, bool_decide_eq_true.
      apply leibniz_equiv, size_empty_iff. lia. }
  rewrite Hsize.
  destruct (arg_fuzzy_track_dupes a && negb (bool_decide (skip_if_set a = ∅)));
    [|now intros [= <-]].
  intros Hbuilt.
  destruct (index_records_contents _ _ _ _ key Hbuilt) as [Hsome Hmem].
  rewrite lookup_empty in Hsome, Hmem. split.
  - rewrite Hsome. split; [intros [[x Hx]|H]; [discriminate | exact H]
                          | now right].
  - intros set_id. rewrite Hmem. cbn [default].
    split; [intros [H|H]; [set_solver | exact H] | now right].
Qed.

Lemma fuzzy_index_contents_witness :
  let db := SelectorFacts.two_tracks_with_set in
  exists exclude_track_data,
    build_index (SelectorFacts.skipping_setA true) db
    = inr exclude_track_data /\
    is_Some (exclude_track_data !! SelectorFacts.title_x_artist_y) /\
    SelectorFacts.setA
    ∈ default ∅ (exclude_track_data !! SelectorFacts.title_x_artist_y).
Proof.
  intros db.
  destruct (build_index (SelectorFacts.skipping_setA true) db)
    as [e|exclude_track_data] eqn:Hbuilt; [vm_compute in Hbuilt; discriminate|].
  exists exclude_track_data. split; [reflexivity|].
  pose proof (fuzzy_index_contents _ _ _ SelectorFacts.title_x_artist_y Hbuilt)
    as Hcontents.
  change (arg_fuzzy_track_dupes (SelectorFacts.skipping_setA true)) with true
    in Hcontents.
  assert (Hskip : bool_decide (skip_if_set (SelectorFacts.skipping_setA true)
                               = ∅) = false).
  { apply bool_decide_eq_false. intros Hempty.
    assert (Hin : SelectorFacts.setA
                  ∈ skip_if_set (SelectorFacts.skipping_setA true))
      by (unfold skip_if_set; simpl; set_solver).
    rewrite Hempty in Hin. set_solver. }
  rewrite Hskip in Hcontents. cbn [andb negb] in Hcontents.
  destruct Hcontents as [Hsome Hmem].
  assert (Htaken : taken_in (skip_if_set (SelectorFacts.skipping_setA true))
                     SelectorFacts.title_x_artist_y
                     (SelectorFacts.with_set "setA"
                        (SelectorFacts.stored "Title X" "Artist Y"
                           [(SelectorFacts.setA, 1%Z)]))).
  { split; [|reflexivity]. eexists. split; [reflexivity|].
    unfold skip_if_set. simpl. set_solver. }
  split.
  - apply Hsome. eexists. split; [|exact Htaken]. now left.
  - apply Hmem. eexists _, _. split; [now left|]. split; [exact Htaken|].
    split; [reflexivity|]. split; [|now left].
    unfold skip_if_set. simpl. set_solver.
Defined.

End IndexFacts.

(** ** Facts about the grid of the tables that pagination makes *)

Module GridFacts.
Import Py PyFacts Layout LayoutFacts.

(** Every table of a pagination has the default grid and from 1 to 12
    cards. *)
Lemma paginate_table_shape tracks t :
  In t (paginate tracks) ->
  width t = 3%Z /\ height t = 4%Z /\ 1 <= length (cells t) <= 12.
Proof.
  unfold paginate.
  assert (Hstart : loop_state [] (Table_new, [])).
  { unfold loop_state. simpl. repeat split; try lia. constructor. }
  pose proof (paginate_loop_state tracks [] _ Hstart) as Hst.
  destruct (fold_left paginate_step tracks (Table_new, []))
    as [table closed_tables].
  unfold loop_state in Hst. cbn [fst snd] in Hst.
  destruct Hst as (Hw & Hh & Hlen & Hclosed & _).
  assert (Hin_closed : In t closed_tables ->
            width t = 3%Z /\ height t = 4%Z /\ 1 <= length (cells t) <= 12).
  { intros Hin. rewrite List.Forall_forall in Hclosed.
    destruct (Hclosed t Hin) as (Hc & Hcw & Hch). repeat split; lia. }
  unfold Table_is_empty, len.
  destruct (Z.eqb_spec (Z.of_nat (length (cells table))) 0) as [He|Hne];
    cbn [negb]; [exact Hin_closed|].
  intros Hin. apply in_app_or in Hin as [Hin|[<-|[]]]; [auto|].
  repeat split; lia.
Qed.

Lemma cell_position_in_grid m w h i ix iy :
  (0 < w)%Z -> (Z.of_nat i < w * h)%Z ->
  cell_position m w i = Some (ix, iy) ->
  (0 <= ix < w)%Z /\ (0 <= iy < h)%Z.
Proof.
  intros Hw Hi. unfold cell_position.
  destruct (Z.eqb_spec w 0); [lia|].
  pose proof (Z.mod_pos_bound (Z.of_nat i) w Hw) as Hmod.
  assert (Hdiv : (0 <= Z.of_nat i / w < h)%Z).
  { split; [apply Z.div_pos; lia|]. apply Z.div_lt_upper_bound; lia. }
  destruct m; intros [= <- <-]; lia.
Qed.

Lemma cell_position_inj m w i j p :
  w <> 0%Z ->
  cell_position m w i = Some p -> cell_position m w j = Some p -> i = j.
Proof.
  intros Hw. unfold cell_position. destruct (Z.eqb_spec w 0); [contradiction|].
  pose proof (Z.div_mod (Z.of_nat i) w Hw) as Hi.
  pose proof (Z.div_mod (Z.of_nat j) w Hw) as Hj.
  destruct m; intros [= <-] [= Hcol Hrow];
    (assert (Z.of_nat i mod w = Z.of_nat j mod w)%Z as Hmod by lia);
    rewrite Hrow, <- Hmod in Hj; lia.
Qed.

(** Every cell of every table that pagination makes is drawn inside the 3 by
    4 grid, on either side of the sheet, and no two cells of a table are
    drawn at the same place. *)
Theorem paginated_cells_in_grid (tracks : list Track) (t : Table) (m : mode) :
  In t (paginate tracks) ->
  exists placed,
    render_cells m t = Some placed /\
    length placed = length (cells t) /\
    (forall i ix iy track,
       placed !! i = Some (ix, iy, track) ->
       cells t !! i = Some track /\ (0 <= ix < 3)%Z /\ (0 <= iy < 4)%Z) /\
    (forall i j ix iy track track',
       placed !! i = Some (ix, iy, track) ->
       placed !! j = Some (ix, iy, track') -> i = j).
Proof.
  intros Hin. destruct (paginate_table_shape _ _ Hin) as (Hw & Hh & Hlen).
  unfold render_cells. rewrite Hw.
  destruct (place_cells_lookup m 3 (cells t) 0 ltac:(discriminate))
    as (placed & Hplaced & Hlength & Hall).
  exists placed. split; [exact Hplaced|]. split; [exact Hlength|].
  assert (Hcell : forall i ix iy track,
            placed !! i = Some (ix, iy, track) ->
            cells t !! i = Some track /\
            cell_position m 3 i = Some (ix, iy)).
  { intros i ix iy track Hi.
    assert (Hlt : i < length (cells t)).
    { rewrite <- Hlength. now apply lookup_lt_Some in Hi. }
    destruct (lookup_lt_is_Some_2 _ _ Hlt) as [track' Htrack'].
    destruct (Hall i track' Htrack') as (ix' & iy' & Hpos & Hi').
    rewrite Hi in Hi'. injection Hi' as -> -> ->. now split. }
  split.
  - intros i ix iy track Hi. destruct (Hcell _ _ _ _ Hi) as [Htrack Hpos].
    split; [exact Htrack|].
    apply (cell_position_in_grid m 3 4 i); [lia| |exact Hpos].
    apply lookup_lt_Some in Htrack. lia.
  - intros i j ix iy track track' Hi Hj.
    destruct (Hcell _ _ _ _ Hi) as [_ Hpi].
    destruct (Hcell _ _ _ _ Hj) as [_ Hpj].
    now apply (cell_position_inj m 3 i j (ix, iy)).
Qed.

Lemma paginated_cells_in_grid_witness :
  let tracks := map card (map Z.of_nat (seq 0 13)) in
  exists t placed,
    In t (paginate tracks) /\
    render_cells mode_qr t = Some placed /\
    length placed = length (cells t).
Proof.
  intros tracks.
  destruct (paginate tracks) as [|t rest] eqn:Hpages;
    [vm_compute in Hpages; discriminate|].
  assert (Hin : In t (paginate tracks)) by (rewrite Hpages; now left).
  destruct (paginated_cells_in_grid tracks t mode_qr Hin)
    as (placed & Hplaced & Hlength & _).
  exists t, placed. split; [now left|]. now split.
Defined.

End GridFacts.

(** ** Facts about the ingestion loop *)

Module IngestFacts.
Import Py PyFacts Store Normalizer Fetch.

(** *** The dictionary *)

Lemma dict_get_set_eq {V} k (v : V) d : dict_get k (dict_set k v d) = Some v.
Proof.
  induction d as [|[k' v'] d IH]; simpl.
  - now rewrite decide_True.
  - destruct (decide (k' = k)) as [->|Hne]; simpl.
    + now rewrite decide_True.
    + now rewrite decide_False.
Qed.


Lemma dict_set_keys {V} k (v : V) d :
  is_Some (dict_get k d) -> keys (dict_set k v d) = keys d.
Proof.
  induction d as [|[k' v'] d IH]; simpl.
  - now intros [x Hx].
  - destruct (decide (k' = k)) as [->|Hne]; simpl; [reflexivity|].
    intros H. now rewrite IH.
Qed.

Lemma dict_get_None {V} k (d : list (str * V)) :
  dict_get k d = None <-> k ∉ keys d.
Proof.
  induction d as [|[k' v] d IH]; cbn [dict_get keys map fst].
  - split; [intros _; apply not_elem_of_nil | reflexivity].
  - rewrite not_elem_of_cons. destruct (decide (k' = k)) as [->|Hne].
    + split; [discriminate | intros [[] _]; reflexivity].
    + rewrite IH. unfold keys. intuition congruence.
Qed.




Section Ingestion.
Set Default Proof Using "All".
Variable int : str -> option Z.
Variables album_remastered album_remaster_of_year : str -> str.
Variables track_remastered track_remaster_of_year track_featuring
  : str -> str.
Variable fetch_track_metadata : str -> str -> Z -> option Scraped.

Let clean :=
  clean_track_data album_remastered album_remaster_of_year track_remastered
                   track_remaster_of_year track_featuring.

Let line_body :=
  fetch_line int album_remastered album_remaster_of_year track_remastered
             track_remaster_of_year track_featuring fetch_track_metadata.

Let run_lines :=
  ingest int album_remastered album_remaster_of_year track_remastered
         track_remaster_of_year track_featuring fetch_track_metadata.

(** *** A line for a track that the store has *)

(** The index of a line: its third token, else its position counted
    from 1. *)
Definition index_of_line (idx : nat) (tokens : list str) : option Z :=
  if (2 <? len tokens)%Z then int (nth 2 tokens [])
  else Some (Z.of_nat idx + 1)%Z.

Lemma fetch_line_known a idx track_id_def st existing track_set track_index :
  skipped_line track_id_def = false ->
  db_reprocess_mode a = false ->
  arg_force_reload a = false ->
  effective_set a (tokens_of track_id_def) = Some track_set ->
  index_of_line idx (tokens_of track_id_def) = Some track_index ->
  dict_get (track_id_of (tokens_of track_id_def)) (track_db st)
  = Some existing ->
  line_body a idx track_id_def st
  = Next (print (AlreadyExists (track_id_of (tokens_of track_id_def)))
            {| track_db :=
                 dict_set (track_id_of (tokens_of track_id_def))
                   (clean (add_to_set track_set track_index existing))
                   (track_db st);
               saved := saved st;
               printed := printed st |}).
Proof.
  intros Hline Hmode Hforce Hset Hindex Hget.
  unfold line_body, fetch_line, index_of_line in *.
  now rewrite Hline, Hindex, Hset, Hmode, Hget, Hforce.
Qed.


(** *** What a run never does to the store *)












(** *** Reprocess mode *)






(** Cleaning a cleaned record changes nothing: the clean title and album
    are made again from the title and album, which stay. *)
Lemma clean_twice d : clean (clean d) = clean d.
Proof. reflexivity. Qed.



(** *** A list of known tracks *)

(** What a line does that fetches nothing and writes nothing: the store has
    the keys it had, nothing is saved, and no page is asked for. *)
Definition in_memory (st st' : run) : Prop :=
  keys (track_db st') = keys (track_db st) /\
  saved st' = saved st /\
  exists more, printed st' = printed st ++ more /\
               Forall (fun m => forall track_id, m <> Fetching track_id) more.

Lemma in_memory_refl st : in_memory st st.
Proof.
  split; [reflexivity|]. split; [reflexivity|]. exists [].
  now rewrite app_nil_r.
Qed.

Lemma in_memory_trans st1 st2 st3 :
  in_memory st1 st2 -> in_memory st2 st3 -> in_memory st1 st3.
Proof.
  intros (Hk1 & Hs1 & m1 & Hp1 & Hm1) (Hk2 & Hs2 & m2 & Hp2 & Hm2).
  split; [congruence|]. split; [congruence|]. exists (m1 ++ m2).
  split; [now rewrite Hp2, Hp1, app_assoc | now apply Forall_app].
Qed.

Lemma in_memory_print m st :
  (forall track_id, m <> Fetching track_id) -> in_memory st (print m st).
Proof.
  intros Hm. split; [reflexivity|]. split; [reflexivity|]. exists [m].
  split; [reflexivity | now constructor].
Qed.

Definition known_line (st : run) (track_id_def : str) : Prop :=
  skipped_line track_id_def = false ->
  is_Some (dict_get (track_id_of (tokens_of track_id_def)) (track_db st)).

Lemma known_line_in_memory a idx track_id_def st :
  db_reprocess_mode a = false ->
  arg_force_reload a = false ->
  known_line st track_id_def ->
  match line_body a idx track_id_def st with
  | Next st' | Break st' | Halt _ st' => in_memory st st'
  end.
Proof.
  intros Hmode Hforce Hknown. unfold known_line in Hknown.
  unfold line_body, fetch_line.
  destruct (skipped_line track_id_def); [apply in_memory_refl|].
  destruct (Hknown eq_refl) as [existing Hget].
  destruct (if (2 <? len (tokens_of track_id_def))%Z then _ else _)
    as [track_index|]; [|apply in_memory_refl].
  rewrite Hmode, Hget, Hforce.
  destruct (effective_set a (tokens_of track_id_def)) as [track_set|].
  - eapply in_memory_trans; [|apply in_memory_print; discriminate].
    split; [|split; [reflexivity | exists []; now rewrite app_nil_r]].
    cbn [track_db]. apply dict_set_keys. now rewrite Hget.
  - apply in_memory_print. discriminate.
Qed.

Lemma known_lines_in_memory a items : forall idx st,
  db_reprocess_mode a = false ->
  arg_force_reload a = false ->
  Forall (known_line st) items ->
  in_memory st (fst (for_each (line_body a) idx items st)).
Proof.
  induction items as [|item items IH]; intros idx st Hmode Hforce Hknown.
  - apply in_memory_refl.
  - inversion Hknown as [|? ? Hitem Hitems]; subst.
    pose proof (known_line_in_memory a idx item st Hmode Hforce Hitem)
      as Hline.
    cbn [for_each]. destruct (line_body a idx item st) as [st'|st'|e st'];
      cbn [fst]; try exact Hline.
    eapply in_memory_trans; [exact Hline|]. apply IH; try assumption.
    destruct Hline as (Hkeys & _). eapply Forall_impl; [exact Hitems|].
    intros line Hl Hskip. specialize (Hl Hskip).
    apply not_eq_None_Some. apply not_eq_None_Some in Hl.
    intros Hnone. apply Hl.
    apply dict_get_None. apply dict_get_None in Hnone.
    now rewrite <- Hkeys.
Qed.

(** A list whose lines all name tracks of the store, without force reload:
    the run asks for no page and keeps the keys of the store; it writes the
    store once, at the end, if it gets there, and not at all if it stops
    before, so that the sets it had added by then are lost. *)
Theorem known_tracks_write_once a lines st :
  db_reprocess_mode a = false ->
  arg_force_reload a = false ->
  Forall (known_line st) (map strip lines) ->
  let st' := fst (run_lines a lines st) in
  let e := snd (run_lines a lines st) in
  keys (track_db st') = keys (track_db st) /\
  saved st' = match e with
              | Completed => saved st ++ [track_db st']
              | _ => saved st
              end /\
  Forall (fun m => forall track_id, m <> Fetching track_id)
         (drop (length (printed st)) (printed st')).
Proof.
  intros Hmode Hforce Hknown st' e. subst st' e.
  unfold run_lines, ingest, track_ids_of. rewrite Hmode. fold line_body.
  pose proof (known_lines_in_memory a (map strip lines) 0 st Hmode Hforce
                Hknown) as (Hkeys & Hsaved & more & Hprinted & Hmore).
  destruct (for_each (line_body a) 0 (map strip lines) st) as [st1 e].
  cbn [fst] in *.
  assert (Hdrop : drop (length (printed st)) (printed st1) = more)
    by (rewrite Hprinted; apply drop_app_length).
  destruct e as [|code|e]; cbn [fst snd track_db saved printed];
    rewrite Hdrop;
    (split; [exact Hkeys|]; split; [|exact Hmore]).
  - now rewrite Hsaved.
  - exact Hsaved.
  - exact Hsaved.
Qed.

(** *** Force reload *)

(** A record that the ingestion makes for a track new to the store has no
    overrides. *)
Lemma new_record_has_no_overrides scraped track_set track_index d :
  new_track_data album_remastered album_remaster_of_year track_remastered
    track_remaster_of_year track_featuring scraped track_set track_index None
  = inr d ->
  d_title_override d = None /\ d_artist_override d = None /\
  d_album_override d = None.
Proof. intros [= <-]. now repeat split. Qed.


End Ingestion.
Set Default Proof Using "Type".

(** *** The ingestion at sample lines *)

Definition sample_line_body :=
  fetch_line SelectorFacts.sample_int id id id id id
             (fun _ _ _ => Some SetIdFacts.scraped_x).

Definition sample_run_lines :=
  ingest SelectorFacts.sample_int id id id id id
         (fun _ _ _ => Some SetIdFacts.scraped_x).

Definition set_b : args :=
  {| arg_set_id := Some SelectorFacts.setB; arg_set_id_override := None;
     arg_force_reload := false; db_reprocess_mode := false |}.



Definition two_tracks_run : run :=
  {| track_db := SelectorFacts.two_tracks; saved := []; printed := [] |}.





(** The lines [id1;setB] and [id2] with no default set: the run exits at
    the second line, and the store in memory has [id1] in [setB], but
    nothing was written. *)
Lemma known_tracks_write_once_witness :
  let out :=
    sample_run_lines SetIdFacts.no_set_id
                     [of_string "id1;setB"; of_string "id2"] two_tracks_run in
  snd out = Exited 1 /\
  saved (fst out) = [] /\
  exists track_data sets,
    dict_get (of_string "id1") (track_db (fst out)) = Some track_data /\
    d_sets track_data = Some sets /\
    dict_get SelectorFacts.setB sets = Some 1%Z.
Proof.
  assert (Hknown : Forall (known_line two_tracks_run)
                     (map strip [of_string "id1;setB"; of_string "id2"])).
  { repeat constructor; intros _; eexists; vm_compute; reflexivity. }
  destruct (known_tracks_write_once SelectorFacts.sample_int id id id id id
              (fun _ _ _ => Some SetIdFacts.scraped_x) SetIdFacts.no_set_id
              [of_string "id1;setB"; of_string "id2"] two_tracks_run
              eq_refl eq_refl Hknown) as (_ & Hsaved & _).
  split; [vm_compute; reflexivity|]. split; [exact Hsaved|].
  eexists _, _. split; [vm_compute; reflexivity|]. split; reflexivity.
Defined.


End IngestFacts.

(** ** The index of a line without a third token, on both paths *)

Module ImplicitIndexFacts.
Import Py PyFacts Layout Store.

(** The card of a candidate carries the third token of the line, else the
    position of the line counted from 0. *)
Lemma candidate_set_index int fromisoformat a exclude_track_data
      track_metadata idx track_id_def track :
  SelectionFacts.verdict_of int fromisoformat a exclude_track_data
    track_metadata idx track_id_def = SelectionFacts.Candidate track ->
  (if (2 <? len (tokens_of track_id_def))%Z
   then int (nth 2 (tokens_of track_id_def) [])
   else Some (Z.of_nat idx)) = Some (set_index track).
Proof.
  unfold SelectionFacts.verdict_of.
  destruct (skipped_line track_id_def); [discriminate|].
  destruct (if (2 <? len (tokens_of track_id_def))%Z then _ else _)
    as [track_index|]; [|discriminate].
  destruct (match Selector.arg_set_name a with Some _ => _ | None => _ end);
    [discriminate|].
  destruct (dict_get _ track_metadata) as [existing|]; [|discriminate].
  destruct (if (0 <? _)%Z then _ else _) as [e|[|set_id other_sets]];
    try discriminate.
  destruct (Selector.make_track _ _ _ _ _ _) as [made|] eqn:Hmade;
    [|discriminate].
  destruct (exclude_track_data !! _); [discriminate|].
  intros [= <-]. unfold Selector.make_track in Hmade.
  destruct (fromisoformat _), (int (d_album_track existing));
    try discriminate.
  now injection Hmade as <-.
Qed.

(** The two paths count the lines differently.  For a line without a third
    token at position [idx] of the list (blank and comment lines counted,
    the first line at 0), the ingestion records the track in the set at
    index [idx + 1], and the selection gives the card the index [idx]. *)
Theorem implicit_index_differs
  (int : str -> option Z) (fromisoformat : str -> option date)
  (album_remastered album_remaster_of_year : str -> str)
  (track_remastered track_remaster_of_year track_featuring : str -> str)
  (fetch_track_metadata : str -> str -> Z -> option Fetch.Scraped)
  (idx : nat) (track_id_def : str) :
  (len (tokens_of track_id_def) <= 2)%Z ->
  (forall a st existing track_set,
     skipped_line track_id_def = false ->
     Fetch.db_reprocess_mode a = false ->
     Fetch.arg_force_reload a = false ->
     Fetch.effective_set a (tokens_of track_id_def) = Some track_set ->
     dict_get (track_id_of (tokens_of track_id_def)) (Fetch.track_db st)
     = Some existing ->
     exists st' track_data sets,
       Fetch.fetch_line int album_remastered album_remaster_of_year
         track_remastered track_remaster_of_year track_featuring
         fetch_track_metadata a idx track_id_def st = Next st' /\
       dict_get (track_id_of (tokens_of track_id_def)) (Fetch.track_db st')
       = Some track_data /\
       d_sets track_data = Some sets /\
       dict_get track_set sets = Some (Z.of_nat idx + 1)%Z) /\
  (forall a exclude_track_data track_metadata track,
     SelectionFacts.verdict_of int fromisoformat a exclude_track_data
       track_metadata idx track_id_def = SelectionFacts.Candidate track ->
     set_index track = Z.of_nat idx).
Proof.
  intros Htokens.
  assert (Hshort : (2 <? len (tokens_of track_id_def))%Z = false)
    by (apply Z.ltb_ge; lia).
  split.
  - intros a st existing track_set Hline Hmode Hforce Hset Hget.
    assert (Hindex : IngestFacts.index_of_line int idx (tokens_of track_id_def)
                     = Some (Z.of_nat idx + 1)%Z).
    { unfold IngestFacts.index_of_line. now rewrite Hshort. }
    rewrite (IngestFacts.fetch_line_known int album_remastered
               album_remaster_of_year track_remastered track_remaster_of_year
               track_featuring fetch_track_metadata
               _ _ _ _ _ _ _ Hline Hmode Hforce Hset Hindex Hget).
    eexists _, _, _. split; [reflexivity|]. cbn [Fetch.print Fetch.track_db].
    split; [apply IngestFacts.dict_get_set_eq|].
    cbn [Fetch.clean_track_data Fetch.add_to_set d_sets].
    split; [reflexivity|]. apply IngestFacts.dict_get_set_eq.
  - intros a exclude_track_data track_metadata track Hcand.
    apply candidate_set_index in Hcand. rewrite Hshort in Hcand.
    now injection Hcand as <-.
Qed.

(** The line [id1] at position 4: index 5 in the store, index 4 on the
    card. *)
Lemma implicit_index_differs_witness :
  (exists st' track_data,
     IngestFacts.sample_line_body IngestFacts.set_b 4 (of_string "id1")
                                  IngestFacts.two_tracks_run = Next st' /\
     dict_get (of_string "id1") (Fetch.track_db st') = Some track_data /\
     exists sets, d_sets track_data = Some sets /\
                  dict_get SelectorFacts.setB sets = Some 5%Z) /\
  (forall track,
     SelectionFacts.verdict_of SelectorFacts.sample_int
       SelectorFacts.sample_fromisoformat SetIdFacts.no_options ∅
       SelectorFacts.two_tracks 4 (of_string "id1")
     = SelectionFacts.Candidate track ->
     set_index track = 4%Z).
Proof.
  assert (Htokens : (len (tokens_of (of_string "id1")) <= 2)%Z)
    by (vm_compute; discriminate).
  destruct (implicit_index_differs SelectorFacts.sample_int
              SelectorFacts.sample_fromisoformat id id id id id
              (fun _ _ _ => Some SetIdFacts.scraped_x) 4 (of_string "id1")
              Htokens) as [Hfetch Hrender].
  split.
  - destruct (Hfetch IngestFacts.set_b IngestFacts.two_tracks_run
                (SelectorFacts.stored "Title X" "Artist Y"
                   [(SelectorFacts.setA, 1%Z)])
                SelectorFacts.setB eq_refl eq_refl eq_refl eq_refl eq_refl)
      as (st' & track_data & sets & Hline & Hget & Hsets & Hindex).
    exists st', track_data. split; [exact Hline|]. split; [exact Hget|].
    now exists sets.
  - intros track. apply Hrender.
Defined.

End ImplicitIndexFacts.

(** ** The key order of a stored record *)

Module ReorderFacts.
Import Py PyFacts Store Reorder.

Lemma filter_all {A} (P : A -> Prop) `{forall x, Decision (P x)} (l : list A) :
  (forall x, x ∈ l -> P x) -> filter P l = l.
Proof.
  induction l as [|x l IH]; [reflexivity|]. intros Hall.
  rewrite filter_cons_True by (apply Hall; now left).
  f_equal. apply IH. intros y Hy. apply Hall. now right.
Qed.

Lemma filter_none {A} (P : A -> Prop) `{forall x, Decision (P x)} (l : list A) :
  (forall x, x ∈ l -> ~ P x) -> filter P l = [].
Proof.
  induction l as [|x l IH]; [reflexivity|]. intros Hall.
  rewrite filter_cons_False by (apply Hall; now left).
  apply IH. intros y Hy. apply Hall. now right.
Qed.

Lemma omap_agree {A B} (f g : A -> option B) (l : list A) :
  (forall x, x ∈ l -> f x = g x) -> omap f l = omap g l.
Proof.
  induction l as [|x l IH]; [reflexivity|]. intros Hall.
  cbn [omap list_omap]. rewrite (Hall x) by now left.
  rewrite IH; [reflexivity|]. intros y Hy. apply Hall. now right.
Qed.

Lemma dict_del_filter {V} k (d : list (str * V)) :
  NoDup (keys d) ->
  (if dict_has k d then dict_del k d else d)
  = filter (fun item => fst item <> k) d.
Proof.
  unfold dict_has. induction d as [|[k' v] d IH]; [reflexivity|].
  cbn [keys map fst]. intros Hnodup. apply NoDup_cons in Hnodup as [Hk' Hnodup].
  specialize (IH Hnodup). cbn [dict_get dict_del].
  destruct (decide (k' = k)) as [->|Hne].
  - rewrite filter_cons_False by (cbn; intros H; now apply H).
    apply IngestFacts.dict_get_None in Hk'. rewrite Hk' in IH. exact IH.
  - rewrite filter_cons_True by exact Hne.
    destruct (dict_get k d); [now f_equal | now rewrite <- IH].
Qed.

Lemma keys_filter_NoDup {V} (P : str * V -> Prop) `{forall x, Decision (P x)}
      (d : list (str * V)) :
  NoDup (keys d) -> NoDup (keys (filter P d)).
Proof.
  unfold keys. intros Hnodup.
  apply (sublist_NoDup _ (map fst d)); [exact Hnodup|].
  apply fmap_sublist, sublist_filter.
Qed.

Lemma dict_get_filter_ne {V} k f (d : list (str * V)) :
  f <> k -> dict_get f (filter (fun item => fst item <> k) d) = dict_get f d.
Proof.
  intros Hne. induction d as [|[k' v] d IH]; [reflexivity|].
  destruct (decide (k' = k)) as [->|Hk'].
  - rewrite filter_cons_False by (cbn; intros H; now apply H).
    cbn [dict_get]. now destruct (decide (k = f)) as [->|_].
  - rewrite filter_cons_True by exact Hk'. cbn [dict_get].
    now destruct (decide (k' = f)).
Qed.

Lemma dict_set_fresh {V} k (v : V) d :
  k ∉ keys d -> dict_set k v d = d ++ [(k, v)].
Proof.
  induction d as [|[k' v'] d IH]; [reflexivity|].
  cbn [keys map fst dict_set]. rewrite not_elem_of_cons. intros [Hne Hk].
  destruct (decide (k' = k)); [congruence|]. cbn. now rewrite IH.
Qed.

(** What the first loop keeps of a field: its value in the dict, unless it
    is missing or [None]. *)
Definition kept (track_data : list (str * value)) (field : str)
  : option (str * value) :=
  match dict_get field track_data with
  | Some field_value =>
      if is_none field_value then None else Some (field, field_value)
  | None => None
  end.

Lemma kept_keys track_data fields :
  sublist (keys (omap (kept track_data) fields)) fields.
Proof.
  induction fields as [|f fields IH]; [constructor|].
  cbn [omap list_omap]. unfold kept at 1.
  destruct (dict_get f track_data) as [v|]; [destruct (is_none v)|];
    cbn [keys map fst]; try (now apply sublist_cons); now apply sublist_skip.
Qed.

Lemma move_fields_result fields : forall track_data copy,
  NoDup (keys track_data) ->
  NoDup fields ->
  (forall field, field ∈ fields -> field ∉ keys copy) ->
  move_fields fields track_data copy
  = (filter (fun item => fst item ∉ fields) track_data,
     copy ++ omap (kept track_data) fields).
Proof.
  induction fields as [|f fields IH]; intros d c Hd Hfields Hfresh.
  - cbn [move_fields omap list_omap]. rewrite app_nil_r. f_equal.
    symmetry. apply filter_all. intros item _. apply not_elem_of_nil.
  - apply NoDup_cons in Hfields as [Hf Hfields]. cbn [move_fields].
    rewrite (dict_del_filter f d Hd).
    set (c' := match dict_get f d with
               | Some v => if is_none v then c else dict_set f v c
               | None => c
               end).
    assert (Hc' : c' = c ++ from_option (fun item => [item]) [] (kept d f)).
    { unfold c', kept. destruct (dict_get f d) as [v|];
        [destruct (is_none v)|]; cbn [from_option];
        rewrite ?app_nil_r; try reflexivity.
      apply dict_set_fresh, Hfresh. now left. }
    rewrite IH.
    + f_equal.
      * rewrite list_filter_filter. apply list_filter_iff. intros [k v].
        cbn [fst]. rewrite not_elem_of_cons. tauto.
      * rewrite Hc', <- app_assoc. f_equal. cbn [omap list_omap].
        replace (omap (kept (filter (fun item => fst item <> f) d)) fields)
          with (omap (kept d) fields).
        { now destruct (kept d f). }
        apply omap_agree. intros g Hg. unfold kept.
        rewrite dict_get_filter_ne; [reflexivity|]. now intros ->.
    + now apply keys_filter_NoDup.
    + exact Hfields.
    + intros g Hg. rewrite Hc'. unfold keys. rewrite fmap_app.
      rewrite not_elem_of_app. split; [apply Hfresh; now right|].
      unfold kept. destruct (dict_get f d) as [v|];
        [destruct (is_none v)|]; cbn; try apply not_elem_of_nil.
      rewrite list_elem_of_singleton. intros ->. now apply Hf.
Qed.

Lemma move_back_result copy : forall track_data,
  NoDup (keys (track_data ++ copy)) ->
  move_back track_data copy = track_data ++ copy.
Proof.
  unfold move_back.
  induction copy as [|[k v] copy IH]; intros d Hnodup; cbn [fold_left fst snd].
  - now rewrite app_nil_r.
  - assert (Hk : k ∉ keys d).
    { unfold keys in Hnodup. rewrite fmap_app in Hnodup.
      apply NoDup_app in Hnodup as (_ & Hdisj & _). intros Hin.
      apply (Hdisj k Hin). now left. }
    rewrite (dict_set_fresh k v d Hk), IH, <- app_assoc; [reflexivity|].
    now rewrite <- app_assoc.
Qed.

Ltac decided :=
  match goal with
  | |- ?P => refine (@bool_decide_unpack P _ _); vm_compute; exact I
  end.

Lemma track_data_field_sequence_NoDup : NoDup track_data_field_sequence.
Proof. decided. Qed.

(** A record whose keys are all known: the keys end up in the order of
    [track_data_field_sequence], each with the value it had, and a key whose
    value is [None] is gone. *)
Theorem reorder_track_data_order (track_data : list (str * value)) :
  NoDup (keys track_data) ->
  (forall k, k ∈ keys track_data -> k ∈ track_data_field_sequence) ->
  reorder_track_data track_data
  = inr (omap (kept track_data) track_data_field_sequence).
Proof.
  intros Hnodup Hknown. unfold reorder_track_data.
  rewrite (move_fields_result _ _ [] Hnodup track_data_field_sequence_NoDup)
    by (intros; apply not_elem_of_nil).
  replace (filter (fun item => fst item ∉ track_data_field_sequence)
                  track_data) with (@nil (str * value)).
  - cbn [move_others app]. f_equal. rewrite move_back_result; [reflexivity|].
    cbn [app].
    apply (sublist_NoDup _ track_data_field_sequence);
      [exact track_data_field_sequence_NoDup | apply kept_keys].
  - symmetry. apply filter_none. intros [k v] Hin. cbn [fst].
    intros Hk. apply Hk, Hknown. unfold keys.
    apply (list_elem_of_fmap_2 fst) in Hin. exact Hin.
Qed.

Definition fetched : list (str * value) :=
  [ (of_string "sets", Mapping [(of_string "setA", 1%Z)]);
    (of_string "title_override", NoneValue);
    (of_string "title", Text (of_string "Title X"));
    (of_string "release_date", Text (of_string "1999-01-01")) ].

Lemma reorder_track_data_order_witness :
  reorder_track_data fetched
  = inr [ (of_string "release_date", Text (of_string "1999-01-01"));
          (of_string "title", Text (of_string "Title X"));
          (of_string "sets", Mapping [(of_string "setA", 1%Z)]) ].
Proof.
  rewrite (reorder_track_data_order fetched).
  - vm_compute. reflexivity.
  - decided.
  - intros k Hk.
    unfold fetched in Hk. cbn [keys map fst] in Hk.
    repeat (apply elem_of_cons in Hk as [->|Hk]; [decided|]).
    now apply elem_of_nil in Hk.
Defined.

(** A record with a key that is not in [track_data_field_sequence]: the
    call raises [RuntimeError], because the second loop deletes from the dict
    it iterates over. *)
Theorem reorder_track_data_unknown_key (track_data : list (str * value))
  (k : str) :
  NoDup (keys track_data) ->
  k ∈ keys track_data ->
  k ∉ track_data_field_sequence ->
  reorder_track_data track_data = inl RuntimeError.
Proof.
  intros Hnodup Hin Hk. unfold reorder_track_data.
  rewrite (move_fields_result _ _ [] Hnodup track_data_field_sequence_NoDup)
    by (intros; apply not_elem_of_nil).
  unfold keys in Hin. apply list_elem_of_fmap in Hin as ([k' v] & -> & Hin).
  assert (Hleft : (k', v) ∈ filter (fun item => fst item ∉
                                      track_data_field_sequence) track_data)
    by (apply list_elem_of_filter; now split).
  destruct (filter _ track_data); [now apply elem_of_nil in Hleft|].
  reflexivity.
Qed.

Definition annotated : list (str * value) :=
  [ (of_string "title", Text (of_string "Title X"));
    (of_string "note", Text (of_string "live")) ].

Lemma reorder_track_data_unknown_key_witness :
  reorder_track_data annotated = inl RuntimeError.
Proof.
  apply (reorder_track_data_unknown_key annotated (of_string "note")).
  - decided.
  - decided.
  - decided.
Defined.

End ReorderFacts.

(** ** The statistics printed by [main] *)

Module StatisticsFacts.
Import Py PyFacts Layout Statistics.

Lemma count_of_count_up k k' c :
  count_of (count_up k c) k'
  = if decide (k = k') then (count_of c k' + 1)%Z else count_of c k'.
Proof.
  unfold count_up. set (n := (count_of c k + 1)%Z). unfold count_of.
  destruct (decide (k = k')) as [Heq|Hne].
  - subst k'. now rewrite lookup_insert_eq.
  - now rewrite lookup_insert_ne.
Qed.

Lemma total_insert_fresh k n (c : counter) :
  c !! k = None -> total (<[k := n]> c) = (n + total c)%Z.
Proof.
  intros Hk. unfold total. rewrite map_fold_insert_L; [reflexivity| |exact Hk].
  intros. lia.
Qed.

Lemma total_count_up k c : total (count_up k c) = (total c + 1)%Z.
Proof.
  unfold count_up, count_of. destruct (c !! k) as [n|] eqn:Hk; cbn [default].
  - rewrite <- (insert_delete_eq c k (n + 1)%Z).
    rewrite total_insert_fresh by apply lookup_delete_eq.
    rewrite <- (insert_delete_id c k n Hk) at 2.
    rewrite total_insert_fresh by apply lookup_delete_eq. lia.
  - rewrite total_insert_fresh by exact Hk. lia.
Qed.

(** The decade a year is counted in. *)
Definition decade_of (track : Track) : Z := (10 * (release_year track / 10))%Z.

Lemma decade_of_range track d :
  decade_of track = d
  <-> (d mod 10 = 0 /\ d <= release_year track < d + 10)%Z.
Proof.
  unfold decade_of. pose proof (Z.div_mod (release_year track) 10 ltac:(lia)).
  pose proof (Z.mod_pos_bound (release_year track) 10 ltac:(lia)).
  split.
  - intros <-. split; [|lia].
    rewrite Z.mul_comm. apply Z.mod_mul. lia.
  - intros [Hmod Hrange]. apply Z.mod_divide in Hmod as [q ->]; [|lia].
    assert (release_year track / 10 = q)%Z as ->; [|lia].
    symmetry. apply (Z.div_unique _ 10 q (release_year track - q * 10)); lia.
Qed.

Lemma tally_from tracks : forall year_counts decade_counts,
  let '(year_counts', decade_counts') :=
    fold_left tally_step tracks (year_counts, decade_counts) in
  (forall y, count_of year_counts' y
             = (count_of year_counts y
                + len (filter (fun track => release_year track = y) tracks))%Z)
  /\ (forall d, count_of decade_counts' d
                = (count_of decade_counts d
                   + len (filter (fun track => decade_of track = d) tracks))%Z)
  /\ total year_counts' = (total year_counts + len tracks)%Z
  /\ total decade_counts' = (total decade_counts + len tracks)%Z.
Proof.
  induction tracks as [|track tracks IH]; intros yc dc.
  - cbn [fold_left]. unfold len. cbn. repeat split; intros; lia.
  - cbn [fold_left tally_step].
    specialize (IH (count_up (release_year track) yc)
                   (count_up (10 * (release_year track / 10))%Z dc)).
    destruct (fold_left tally_step tracks _) as [yc' dc'].
    destruct IH as (Hy & Hd & Hty & Htd). unfold len in *.
    repeat split.
    + intros y. rewrite Hy, count_of_count_up.
      destruct (decide (release_year track = y)) as [Heq|Hne].
      * rewrite filter_cons_True by exact Heq. cbn [length]. lia.
      * rewrite filter_cons_False by exact Hne. lia.
    + intros d. rewrite Hd, count_of_count_up. fold (decade_of track).
      destruct (decide (decade_of track = d)) as [Heq|Hne].
      * rewrite filter_cons_True by exact Heq. cbn [length]. lia.
      * rewrite filter_cons_False by exact Hne. lia.
    + rewrite Hty, total_count_up. cbn [length]. lia.
    + rewrite Htd, total_count_up. cbn [length]. lia.
Qed.

(** Every year is counted with the number of cards of that year, and every
    decade, a multiple of ten, with the number of cards whose year lies in
    the ten years from it; any other number counts 0. *)
Theorem tally_counts (tracks : list Track) (n : Z) :
  count_of (fst (tally tracks)) n
  = len (filter (fun track => release_year track = n) tracks)
  /\ count_of (snd (tally tracks)) n
     = if decide (n mod 10 = 0)%Z
       then len (filter (fun track => (n <= release_year track < n + 10)%Z)
                        tracks)
       else 0%Z.
Proof.
  unfold tally. pose proof (tally_from tracks ∅ ∅) as H.
  destruct (fold_left tally_step tracks (∅, ∅)) as [yc dc].
  destruct H as (Hy & Hd & _). cbn [fst snd]. split.
  - rewrite Hy. unfold count_of. now rewrite lookup_empty.
  - rewrite Hd. unfold count_of at 1. rewrite lookup_empty. cbn [default].
    rewrite Z.add_0_l. destruct (decide (n mod 10 = 0)%Z) as [Hmod|Hmod].
    + f_equal. f_equal. apply list_filter_iff. intros track.
      rewrite decade_of_range. tauto.
    + rewrite ReorderFacts.filter_none; [reflexivity|].
      intros track _ Heq. apply decade_of_range in Heq. tauto.
Qed.

(** The total printed last, the sum of the decade counts, is the number of
    cards, and so is the sum of the year counts. *)
Theorem tally_total (tracks : list Track) :
  total (snd (tally tracks)) = len tracks
  /\ total (fst (tally tracks)) = len tracks.
Proof.
  unfold tally. pose proof (tally_from tracks ∅ ∅) as H.
  destruct (fold_left tally_step tracks (∅, ∅)) as [yc dc].
  destruct H as (_ & _ & Hty & Htd). cbn [fst snd].
  rewrite Hty, Htd. unfold total. rewrite map_fold_empty. lia.
Qed.

End StatisticsFacts.

(** ** What [clean_track_data] leaves in a record *)

Module CleanFacts.
Import Py PyFacts Normalizer NormalizerFacts Store Fetch.


End CleanFacts.

(** ** From the ingestion to the fuzzy index *)

Module PipelineFacts.
Import Py PyFacts Store.

(** The store made from the line [id1] with [setB] as the default set, read
    with fuzzy matching on and [setA] to skip. *)
Lemma fuzzy_index_of_ingested_store_witness :
  Selector.build_index (SelectorFacts.skipping_setA true)
    (Fetch.track_db
       (fst (SetIdFacts.sample_ingest IngestFacts.set_b [of_string "id1"]
                                      SetIdFacts.empty_run)))
  = inl (KeyError (of_string "set")).
Proof.
  apply (SetIdFacts.fuzzy_index_of_ingested_store SelectorFacts.sample_int
           id id id id id (fun _ _ _ => Some SetIdFacts.scraped_x)
           IngestFacts.set_b [of_string "id1"]
           (SelectorFacts.skipping_setA true)).
  - vm_compute. discriminate.
  - reflexivity.
  - intros Hempty.
    assert (Hin : SelectorFacts.setA
                  ∈ Selector.skip_if_set (SelectorFacts.skipping_setA true))
      by (unfold Selector.skip_if_set; simpl; set_solver).
    rewrite Hempty in Hin. set_solver.
Defined.

End PipelineFacts.
